(** * Umami helper: event sanitization, configuration merge, readiness
      gate, dispatcher and scroll-depth tracker

    A shallow embedding of [UmamiHelper] (the class of the analytics
    helper script) and the properties stated about it.

    Conventions of the embedding:
    - a JavaScript string is the list of its UTF-16 code units ([N]);
    - a JavaScript value is a term of [value]; an object is the list of
      its own enumerable properties in insertion order;
    - [window.umami], the clock, the debug console and the fields of the
      instance make up an explicit [State] that the methods thread
      through the monad [M], whose results are either a normal return or
      a thrown exception;
    - timers, page scripts and scroll events are inputs of the event loop
      ([Action], [ScrollAction]);
    - the scroll percentage is computed in the arithmetic of doubles, on
      the primitive floats, and compared by its value ([Scroll.number]).

    The definitions come first, module by module; the properties follow. *)

From Stdlib Require Import List NArith ZArith QArith Qround Bool Lia String Ascii DecimalString Sorted.
From Stdlib Require PrimFloat FloatOps SpecFloat.
From stdpp Require Import base decidable list gmap.
Import ListNotations.

Set Default Proof Using "Type".
Set Warnings "-register-all".

(* ===================================================================== *)
(** ** JavaScript strings *)
(* ===================================================================== *)

Module JsString.

Local Open Scope N_scope.

(** A string is a sequence of UTF-16 code units. *)
Definition jsstring : Type := list N.

(** ASCII literals, for property names and examples. *)
Definition str (s : String.string) : jsstring :=
  List.map N_of_ascii (list_ascii_of_string s).

Definition jsstring_eq_dec : forall a b : jsstring, {a = b} + {a <> b} :=
  List.list_eq_dec N.eq_dec.

Definition underscore : N := 95.

(** The character class [[a-z0-9_]]. *)
Definition in_class (c : N) : bool :=
  ((97 <=? c) && (c <=? 122)) || ((48 <=? c) && (c <=? 57)) || (c =? underscore).

(** [String.prototype.toLowerCase], one code unit at a time.  The ASCII
    capitals map to their small letters.  Two code units outside ASCII have
    a lowercase form that contains an ASCII letter: U+0130 (capital I with
    dot) becomes [i] followed by U+0307, and U+212A (the Kelvin sign)
    becomes [k].  Every other code unit outside ASCII is kept as it is
    here: its real lowercase form is again a sequence of as many code
    units outside ASCII, which the class test of [sanitizeEventName]
    treats in the same way. *)
Definition lower_unit (c : N) : list N :=
  if (65 <=? c) && (c <=? 90) then [c + 32]
  else if c =? 304 then [105; 775]
  else if c =? 8490 then [107]
  else [c].

Definition toLowerCase (s : jsstring) : jsstring := flat_map lower_unit s.

(** [s.replace(/[^a-z0-9_]/g, '_')]: the pattern has no [u] flag, so it
    is matched against single code units. *)
Definition replace_outside_class (s : jsstring) : jsstring :=
  List.map (fun c => if in_class c then c else underscore) s.

(** [s.replace(/_+/g, '_')]: a left-to-right scan; [in_run] tells that the
    code unit before the current one belongs to a run of underscores that
    has already produced its single underscore. *)
Fixpoint replace_underscore_runs (in_run : bool) (s : jsstring) : jsstring :=
  match s with
  | [] => []
  | c :: rest =>
      if c =? underscore
      then if in_run
           then replace_underscore_runs true rest
           else underscore :: replace_underscore_runs true rest
      else c :: replace_underscore_runs false rest
  end.

(** White space and line terminators, as [String.prototype.trim] strips
    them: TAB, LF, VT, FF, CR, SP, NBSP, U+1680, U+2000..U+200A, U+2028,
    U+2029, U+202F, U+205F, U+3000 and U+FEFF. *)
Definition is_white (c : N) : bool :=
  ((9 <=? c) && (c <=? 13)) || (c =? 32) || (c =? 160) || (c =? 5760)
  || ((8192 <=? c) && (c <=? 8202)) || (c =? 8232) || (c =? 8233)
  || (c =? 8239) || (c =? 8287) || (c =? 12288) || (c =? 65279).

Fixpoint trimStart (s : jsstring) : jsstring :=
  match s with
  | [] => []
  | c :: rest => if is_white c then trimStart rest else s
  end.

Definition trimEnd (s : jsstring) : jsstring := rev (trimStart (rev s)).

Definition trim (s : jsstring) : jsstring := trimEnd (trimStart s).

(** [sanitizeEventName(event)] for a string [event]:
    [event.toLowerCase().replace(/[^a-z0-9_]/g, '_').replace(/_+/g, '_').trim()]. *)
Definition sanitizeEventName (event : jsstring) : jsstring :=
  trim (replace_underscore_runs false (replace_outside_class (toLowerCase event))).

(** No two neighbouring underscores, as a check that runs along the
    string; [prev] tells whether the code unit before is an underscore. *)
Fixpoint single_underscores (prev : bool) (s : jsstring) : bool :=
  match s with
  | [] => true
  | c :: rest =>
      if c =? underscore
      then negb prev && single_underscores true rest
      else single_underscores false rest
  end.

End JsString.

(* ===================================================================== *)
(** ** JavaScript values and the configuration resolver *)
(* ===================================================================== *)

Module JsValue.

Import JsString.

(** The values that configurations and event properties are made of.
    Numbers are the integer-valued ones (attempt counts, delays,
    thresholds).  An object is the list of its own enumerable properties,
    each name once, in the order in which they were added; members of
    [Object.prototype] are not modelled, so property names are taken not to
    be [constructor], [toString], [__proto__] and the like. *)
Inductive value : Type :=
| VUndefined
| VNull
| VBool (b : bool)
| VNumber (n : Z)
| VString (s : jsstring)
| VArray (items : list value)
| VObject (props : list (jsstring * value)).

Definition props : Type := list (jsstring * value).

(** [typeof v === 'object']: true of objects, arrays and [null]. *)
Definition typeof_object (v : value) : bool :=
  match v with
  | VNull | VArray _ | VObject _ => true
  | _ => false
  end.

(** [Array.isArray(v)] *)
Definition isArray (v : value) : bool :=
  match v with
  | VArray _ => true
  | _ => false
  end.

(** Truthiness, as [||] tests it. *)
Definition truthy (v : value) : bool :=
  match v with
  | VUndefined | VNull => false
  | VBool b => b
  | VNumber n => negb (n =? 0)%Z
  | VString s => match s with [] => false | _ => true end
  | VArray _ | VObject _ => true
  end.

(** The property name of an array index: its decimal numeral. *)
Definition index_key (i : nat) : jsstring :=
  str (NilEmpty.string_of_uint (Nat.to_uint i)).

Fixpoint indexed {A : Type} (i : nat) (l : list A) : list (jsstring * A) :=
  match l with
  | [] => []
  | x :: rest => (index_key i, x) :: indexed (S i) rest
  end.

(** The own enumerable properties of a value, as the spread [{...v}] and
    [for (key in v)] see them: the properties of an object, the elements
    of an array and the code units of a string under their indices, and
    nothing for the other values. *)
Definition own_props (v : value) : props :=
  match v with
  | VObject ps => ps
  | VArray items => indexed 0 items
  | VString s => indexed 0 (List.map (fun c => VString [c]) s)
  | _ => []
  end.

Fixpoint lookup_prop (key : jsstring) (ps : props) : option value :=
  match ps with
  | [] => None
  | (k, v) :: rest => if jsstring_eq_dec k key then Some v else lookup_prop key rest
  end.

(** [v[key]] for a [v] other than [null] and [undefined] (reading a
    property of those throws; [mergeConfig] is never given one as its
    first argument: see [default_or_empty]). *)
Definition get (v : value) (key : jsstring) : value :=
  match lookup_prop key (own_props v) with
  | Some x => x
  | None =>
      match v with
      | VArray items =>
          if jsstring_eq_dec key (str "length")
          then VNumber (Z.of_nat (length items)) else VUndefined
      | VString s =>
          if jsstring_eq_dec key (str "length")
          then VNumber (Z.of_nat (length s)) else VUndefined
      | _ => VUndefined
      end
  end.

(** [obj[key] = x] on an object: the property keeps its place when it is
    there already and is added at the end otherwise. *)
Fixpoint assign (ps : props) (key : jsstring) (x : value) : props :=
  match ps with
  | [] => [(key, x)]
  | (k, v) :: rest =>
      if jsstring_eq_dec k key then (k, x) :: rest else (k, v) :: assign rest key x
  end.

(** [d || {}] *)
Definition default_or_empty (d : value) : value :=
  if truthy d then d else VObject [].

(** The test of [mergeConfig]:
    [typeof v === 'object' && !Array.isArray(v)]. *)
Definition merges_recursively (v : value) : bool :=
  typeof_object v && negb (isArray v).

(** [mergeConfig(default_config, user_config)]: [merged] starts as the
    spread of [default_config]; the loop runs over the enumerable
    properties of [user_config] (none when it is [null], [undefined], a
    boolean or a number). *)
Fixpoint mergeConfig (default_config user_config : value) : value :=
  let entry (key : jsstring) (v : value) : value :=
    if merges_recursively v
    then mergeConfig (default_or_empty (get default_config key)) v
    else v in
  let merged := own_props default_config in
  VObject
    match user_config with
    | VObject ps =>
        (fix loop (ps : props) (merged : props) : props :=
           match ps with
           | [] => merged
           | (key, v) :: rest => loop rest (assign merged key (entry key v))
           end) ps merged
    | VArray items =>
        (fix loop (items : list value) (i : nat) (merged : props) : props :=
           match items with
           | [] => merged
           | v :: rest => loop rest (S i) (assign merged (index_key i) (entry (index_key i) v))
           end) items 0%nat merged
    | VString s =>
        fold_left (fun merged kv => assign merged (fst kv) (snd kv))
                  (own_props (VString s)) merged
    | _ => merged
    end.

(** The loop of [mergeConfig] over the properties of an object. *)
Fixpoint merge_props (default_config : value) (ps : props) (merged : props) : props :=
  match ps with
  | [] => merged
  | (key, v) :: rest =>
      merge_props default_config rest
        (assign merged key
           (if merges_recursively v
            then mergeConfig (default_or_empty (get default_config key)) v
            else v))
  end.

(** The defaults of the script ([const config]). *)
Definition config : value :=
  let source (name : String.string) (enabled : bool) (extra : props) : jsstring * value :=
    (str name, VObject ((str "enabled", VBool enabled) :: extra)) in
  let eventName (s : String.string) : jsstring * value :=
    (str "eventName", VString (str s)) in
  VObject
    [ (str "debug", VBool false);
      (str "retryAttempts", VNumber 3);
      (str "retryDelay", VNumber 1000);
      (str "tracking",
        VObject
          [ source "forms"%string true [eventName "form_submit"%string];
            source "typeform"%string true [eventName "typeform_submit"%string];
            source "calendly"%string true [eventName "calendly_submit"%string];
            source "hubspot"%string true [eventName "hubspot_submit"%string];
            source "scroll"%string false
              [ (str "thresholds", VArray [VNumber 25; VNumber 50; VNumber 75]);
                eventName "scroll_depth"%string ];
            source "outbound"%string true [eventName "outbound_link"%string];
            source "contactLinks"%string true
              [ (str "eventName",
                  VObject [ (str "phone", VString (str "phone_link"));
                            (str "email", VString (str "email_link")) ]) ] ]) ].

(** Property names are distinct in every object that [mergeConfig] walks
    into, as they are in any object of the language. *)
Fixpoint unique_keys (v : value) : Prop :=
  match v with
  | VObject ps =>
      List.NoDup (List.map fst ps)
      /\ (fix all (ps : props) : Prop :=
            match ps with
            | [] => True
            | (_, x) :: rest => unique_keys x /\ all rest
            end) ps
  | _ => True
  end.

(** [v.k1.k2...]: a read along a path of property names, through
    objects. *)
Fixpoint lookup_path (v : value) (path : list jsstring) : option value :=
  match path with
  | [] => Some v
  | key :: rest =>
      match v with
      | VObject ps =>
          match lookup_prop key ps with
          | Some x => lookup_path x rest
          | None => None
          end
      | _ => None
      end
  end.

(** The overrides say nothing about a path: walking it through their
    objects ends at a property name that is absent. *)
Fixpoint untouched (u : value) (path : list jsstring) : Prop :=
  match path with
  | [] => False
  | key :: rest =>
      match u with
      | VObject ps =>
          match lookup_prop key ps with
          | None => True
          | Some (VObject qs) => untouched (VObject qs) rest
          | Some _ => False
          end
      | _ => False
      end
  end.

(** [{ ...a, ...b }], the merge of the earlier variant of the script
    ([this.config = { ...config, ...options }]). *)
Definition spread_over (a b : value) : value :=
  VObject (fold_left (fun merged kv => assign merged (fst kv) (snd kv))
             (own_props b) (own_props a)).

(** The example configuration of the README. *)
Definition example_options : props :=
  [ (str "debug", VBool true);
    (str "tracking",
      VObject
        [ (str "typeform", VObject [(str "enabled", VBool false)]);
          (str "hubspot", VObject [(str "enabled", VBool false)]);
          (str "scroll",
            VObject
              [ (str "enabled", VBool true);
                (str "thresholds", VArray [VNumber 20; VNumber 50; VNumber 80]);
                (str "eventName", VString (str "custom_scroll_event")) ]) ]) ].

(** Options that switch values off with [null]. *)
Definition null_options : props :=
  [ (str "debug", VNull); (str "tracking", VNull); (str "extra", VNull) ].

(** The [tracking] object of the README's example, the [scroll] object
    inside it, and the script's defaults for [tracking.scroll]. *)
Definition scroll_options : props :=
  [ (str "enabled", VBool true);
    (str "thresholds", VArray [VNumber 20; VNumber 50; VNumber 80]);
    (str "eventName", VString (str "custom_scroll_event")) ].

Definition tracking_options : props :=
  [ (str "typeform", VObject [(str "enabled", VBool false)]);
    (str "hubspot", VObject [(str "enabled", VBool false)]);
    (str "scroll", VObject scroll_options) ].

Definition scroll_defaults : props :=
  [ (str "enabled", VBool false);
    (str "thresholds", VArray [VNumber 25; VNumber 50; VNumber 75]);
    (str "eventName", VString (str "scroll_depth")) ].

End JsValue.

(* ===================================================================== *)
(** ** The dispatcher and the readiness gate *)
(* ===================================================================== *)

Module Helper.

Import JsString JsValue.

(** What a [throw] carries: a [TypeError] of the language, or whatever the
    collector throws. *)
Inductive exn : Type :=
| TypeError (message : String.string)
| Thrown (v : value).

(** How a call ends. *)
Inductive result (A : Type) : Type :=
| Return (a : A)
| Throw (e : exn).
Arguments Return {A} a.
Arguments Throw {A} e.

(** [window.umami]: not defined, or some value, which may or may not
    carry a callable [track]; a [track] returns ([None]) or throws. *)
Inductive umami_obj : Type :=
| UmamiUndefined
| UmamiValue (track : option (jsstring -> value -> option exn)).

Inductive console_arg : Type :=
| Arg (v : value)
| ArgError (e : exn).

(** The fields of [this.config] that the gate and the dispatcher read. *)
Record Config : Type := {
  debug : bool;
  retryAttempts : Z;
}.

(** The interval of [waitForUmami] with the variables of its closure;
    [live] turns false at [clearInterval]. *)
Record Poller : Type := {
  maxAttempts : Z;
  attempts : Z;
  live : bool;
}.

(** The page and the instance.  [received] lists the calls that
    [window.umami.track] has been given, oldest first. *)
Record State : Type := {
  umami : umami_obj;
  clock : jsstring;
  received : list (jsstring * value);
  console : list (list console_arg);
  config : Config;
  initialized : bool;
  eventQueue : list (value * value);
  checkInterval : option Poller;
  listeners : bool;
}.

Definition set_umami (u : umami_obj) (st : State) : State :=
  {| umami := u; clock := clock st; received := received st; console := console st;
     config := config st; initialized := initialized st; eventQueue := eventQueue st;
     checkInterval := checkInterval st; listeners := listeners st |}.

Definition set_clock (t : jsstring) (st : State) : State :=
  {| umami := umami st; clock := t; received := received st; console := console st;
     config := config st; initialized := initialized st; eventQueue := eventQueue st;
     checkInterval := checkInterval st; listeners := listeners st |}.

Definition set_received (r : list (jsstring * value)) (st : State) : State :=
  {| umami := umami st; clock := clock st; received := r; console := console st;
     config := config st; initialized := initialized st; eventQueue := eventQueue st;
     checkInterval := checkInterval st; listeners := listeners st |}.

Definition set_console (c : list (list console_arg)) (st : State) : State :=
  {| umami := umami st; clock := clock st; received := received st; console := c;
     config := config st; initialized := initialized st; eventQueue := eventQueue st;
     checkInterval := checkInterval st; listeners := listeners st |}.

Definition set_initialized (b : bool) (st : State) : State :=
  {| umami := umami st; clock := clock st; received := received st; console := console st;
     config := config st; initialized := b; eventQueue := eventQueue st;
     checkInterval := checkInterval st; listeners := listeners st |}.

Definition set_eventQueue (q : list (value * value)) (st : State) : State :=
  {| umami := umami st; clock := clock st; received := received st; console := console st;
     config := config st; initialized := initialized st; eventQueue := q;
     checkInterval := checkInterval st; listeners := listeners st |}.

Definition set_checkInterval (p : option Poller) (st : State) : State :=
  {| umami := umami st; clock := clock st; received := received st; console := console st;
     config := config st; initialized := initialized st; eventQueue := eventQueue st;
     checkInterval := p; listeners := listeners st |}.

Definition set_listeners (b : bool) (st : State) : State :=
  {| umami := umami st; clock := clock st; received := received st; console := console st;
     config := config st; initialized := initialized st; eventQueue := eventQueue st;
     checkInterval := checkInterval st; listeners := b |}.

(** *** Calls that read and write the state and may throw *)

Definition M (A : Type) : Type := State -> result A * State.

Definition ret {A : Type} (a : A) : M A := fun st => (Return a, st).

Definition throw {A : Type} (e : exn) : M A := fun st => (Throw e, st).

Definition bind {A B : Type} (m : M A) (k : A -> M B) : M B :=
  fun st =>
    match m st with
    | (Return a, st') => k a st'
    | (Throw e, st') => (Throw e, st')
    end.

(** [try { body } catch (error) { handler }] *)
Definition try_catch {A : Type} (body : M A) (handler : exn -> M A) : M A :=
  fun st =>
    match body st with
    | (Return a, st') => (Return a, st')
    | (Throw e, st') => handler e st'
    end.

Definition gets {A : Type} (f : State -> A) : M A := fun st => (Return (f st), st).

Definition modify (f : State -> State) : M unit := fun st => (Return tt, f st).

Notation "x <- m ;; k" := (bind m (fun x => k))
  (at level 100, m at next level, right associativity).
Notation "m ;;; k" := (bind m (fun _ => k))
  (at level 100, right associativity).

(** [logDebug(...args)] *)
Definition logDebug (args : list console_arg) : M unit :=
  fun st =>
    if debug (config st)
    then (Return tt, set_console (console st ++ [args]) st)
    else (Return tt, st).

(** [this.sanitizeEventName(event)] for any [event]: a value that is not
    a string has no [toLowerCase] to call. *)
Definition sanitize_value (event : value) : M jsstring :=
  match event with
  | VString s => ret (sanitizeEventName s)
  | VUndefined | VNull =>
      throw (TypeError "Cannot read properties of undefined (reading 'toLowerCase')")
  | _ => throw (TypeError "event.toLowerCase is not a function")
  end.

(** [{ ...properties, timestamp: now }] *)
Definition enhance (properties : value) (now : jsstring) : value :=
  VObject (assign (own_props properties) (str "timestamp") (VString now)).

(** [window.umami.track(name, properties)] *)
Definition umami_track (name : jsstring) (properties : value) : M unit :=
  fun st =>
    match umami st with
    | UmamiUndefined =>
        (Throw (TypeError "Cannot read properties of undefined (reading 'track')"), st)
    | UmamiValue None =>
        (Throw (TypeError "window.umami.track is not a function"), st)
    | UmamiValue (Some track) =>
        let st' := set_received (received st ++ [(name, properties)]) st in
        match track name properties with
        | None => (Return tt, st')
        | Some e => (Throw e, st')
        end
    end.

(** The default of the parameter [properties = {}]. *)
Definition default_properties (properties : value) : value :=
  match properties with
  | VUndefined => VObject []
  | _ => properties
  end.

(** [logEvent(event, properties = {})] *)
Definition logEvent (event properties : value) : M unit :=
  fun st =>
    let properties := default_properties properties in
    if negb (initialized st)
    then (Return tt, set_eventQueue (eventQueue st ++ [(event, properties)]) st)
    else
      try_catch
        (sanitizedEvent <- sanitize_value event ;;
         now <- gets clock ;;
         let enhancedProperties := enhance properties now in
         umami_track sanitizedEvent enhancedProperties ;;;
         logDebug [Arg (VString (str "Event tracked:"));
                   Arg (VString sanitizedEvent); Arg enhancedProperties])
        (fun error =>
           logDebug [Arg (VString (str "Failed to track event:"));
                     Arg event; ArgError error])
        st.

(** The loop of [processEventQueue]; [None] when [fuel] rounds did not
    empty the queue. *)
Fixpoint processEventQueue_loop (fuel : nat) (st : State) {struct fuel}
  : option (result unit * State) :=
  match eventQueue st with
  | [] => Some (Return tt, st)
  | (event, properties) :: rest =>
      match fuel with
      | O => None
      | S fuel' =>
          match logEvent event properties (set_eventQueue rest st) with
          | (Return _, st') => processEventQueue_loop fuel' st'
          | (Throw e, st') => Some (Throw e, st')
          end
      end
  end.

(** [processEventQueue()]: one round for each queued event is enough when
    the instance is initialized; when it is not, [logEvent] puts every
    event back, the loop of the script does not end, and the result here
    is [None]. *)
Definition processEventQueue (st : State) : option (result unit * State) :=
  processEventQueue_loop (length (eventQueue st)) st.

(** [setupEventListeners()] on a configuration whose reads
    [tracking.<source>.enabled] succeed, as they do on the defaults of the
    script and on every configuration merged from options made of
    objects: the call returns, and [listeners] records that it was made.
    The reads themselves, the seven adapters in their order, the lines
    written to the debug console and the [TypeError] that leaves the call
    when a read fails are [Setup.setupEventListeners] and
    [Setup.setupEventListeners_on]; the gate with any behaviour of this
    call in its place is [run_with] below.  What the adapters do with the
    document is in [Adapters] and [Scroll]. *)
Definition setupEventListeners : M unit := modify (set_listeners true).

(** [checkUmamiAvailable()]: [typeof window.umami !== 'undefined'] *)
Definition checkUmamiAvailable (st : State) : bool :=
  match umami st with
  | UmamiUndefined => false
  | UmamiValue _ => true
  end.

(** [this.initialized = true; this.processEventQueue();
    this.setupEventListeners();] *)
Definition become_ready (st : State) : option (result unit * State) :=
  match processEventQueue (set_initialized true st) with
  | Some (Return _, st') => Some (setupEventListeners st')
  | other => other
  end.

(** [waitForUmami()]: the interval is set, nothing else happens yet. *)
Definition waitForUmami (st : State) : State :=
  set_checkInterval
    (Some {| maxAttempts := retryAttempts (config st); attempts := 0; live := true |}) st.

(** [init()] *)
Definition init (st : State) : option (result unit * State) :=
  if checkUmamiAvailable st then become_ready st
  else Some (Return tt, waitForUmami st).

(** The callback of the interval. *)
Definition interval_callback (p : Poller) (st : State) : option (result unit * State) :=
  let attempts := (attempts p + 1)%Z in
  if checkUmamiAvailable st then
    become_ready
      (set_checkInterval
         (Some {| maxAttempts := maxAttempts p; attempts := attempts; live := false |}) st)
  else if (maxAttempts p <=? attempts)%Z then
    Some (logDebug [Arg (VString (str "Failed to initialize Umami after "));
                    Arg (VNumber (maxAttempts p)); Arg (VString (str " attempts"))]
            (set_checkInterval
               (Some {| maxAttempts := maxAttempts p; attempts := attempts; live := false |}) st))
  else
    Some (Return tt,
          set_checkInterval
            (Some {| maxAttempts := maxAttempts p; attempts := attempts; live := true |}) st).

(** [new UmamiHelper(options)] on a page whose collector is [u] and whose
    clock reads [now]; [cfg] is the merged configuration.  The text that
    [JSON.stringify] makes of the configuration is left out of the line
    it is logged on. *)
Definition new_UmamiHelper (cfg : Config) (u : umami_obj) (now : jsstring)
  : option (result unit * State) :=
  let st := {| umami := u; clock := now; received := []; console := [];
               config := cfg; initialized := false; eventQueue := [];
               checkInterval := None; listeners := false |} in
  match logDebug [Arg (VString (str "Initialized with config:"))] st with
  | (Return _, st') => init st'
  | (Throw e, st') => Some (Throw e, st')
  end.

(** The fields of [Config] out of a merged configuration, when
    [retryAttempts] is a number. *)
Definition config_of (merged : value) : option Config :=
  match get merged (str "retryAttempts") with
  | VNumber n => Some {| debug := truthy (get merged (str "debug")); retryAttempts := n |}
  | _ => None
  end.

(** *** The event loop *)

(** What happens on the page, one task at a time: a script defines or
    removes [window.umami], time passes, somebody calls [logEvent], the
    interval comes due. *)
Inductive Action : Type :=
| PageSetsUmami (u : umami_obj)
| TimePasses (now : jsstring)
| CallLogEvent (event properties : value)
| IntervalFires.

(** One task.  The runtime runs the callback of an interval only as long
    as the interval has not been cleared. *)
Definition step (a : Action) (st : State) : option (result unit * State) :=
  match a with
  | PageSetsUmami u => Some (Return tt, set_umami u st)
  | TimePasses now => Some (Return tt, set_clock now st)
  | CallLogEvent event properties => Some (logEvent event properties st)
  | IntervalFires =>
      match checkInterval st with
      | Some p => if live p then interval_callback p st else Some (Return tt, st)
      | None => Some (Return tt, st)
      end
  end.

(** A run of tasks, with the exceptions that reached the page. *)
Fixpoint run (acts : list Action) (st : State) : option (list exn * State) :=
  match acts with
  | [] => Some ([], st)
  | a :: rest =>
      match step a st with
      | None => None
      | Some (r, st') =>
          match run rest st' with
          | None => None
          | Some (es, st'') =>
              Some (match r with Throw e => e :: es | Return _ => es end, st'')
          end
      end
  end.

(** The calls of [logEvent] in a run, in order, as the queue holds them. *)
Fixpoint logged (acts : list Action) : list (value * value) :=
  match acts with
  | [] => []
  | CallLogEvent event properties :: rest =>
      (event, default_properties properties) :: logged rest
  | _ :: rest => logged rest
  end.

(** The number of times the interval came due in a run. *)
Fixpoint fires (acts : list Action) : nat :=
  match acts with
  | [] => 0
  | IntervalFires :: rest => S (fires rest)
  | _ :: rest => fires rest
  end.

(** What a call of [logEvent] on an initialized instance hands to the
    collector: nothing when the name is not a string or [track] cannot be
    called. *)
Definition forwarded (u : umami_obj) (now : jsstring) (q : value * value)
  : list (jsstring * value) :=
  match fst q, u with
  | VString name, UmamiValue (Some _) =>
      [(sanitizeEventName name, enhance (default_properties (snd q)) now)]
  | _, _ => []
  end.

(** One firing of the interval while [window.umami] is undefined. *)
Definition poll_absent (p : Poller) : Poller :=
  if live p
  then {| maxAttempts := maxAttempts p; attempts := attempts p + 1;
          live := negb (maxAttempts p <=? attempts p + 1)%Z |}
  else p.

(** The state apart from the queue, the calls received and the console. *)
Definition same_frame (st st' : State) : Prop :=
  umami st' = umami st /\ clock st' = clock st /\ config st' = config st
  /\ initialized st' = initialized st /\ checkInterval st' = checkInterval st
  /\ listeners st' = listeners st.

(** A collector whose [track] returns, a page that has it, and an
    initialized instance on that page. *)
Definition quiet_collector : umami_obj := UmamiValue (Some (fun _ _ => None)).

Definition ready_state : State :=
  {| umami := quiet_collector; clock := str "2024-05-01T10:00:00.000Z";
     received := []; console := [];
     config := {| debug := false; retryAttempts := 3 |};
     initialized := true; eventQueue := []; checkInterval := None;
     listeners := true |}.

(** The gate fields of the defaults of the script. *)
Definition default_gate_config : Config := {| debug := false; retryAttempts := 3 |}.

(** Two calls of [logEvent] around a first firing of the interval, then
    the collector script loads. *)
Definition sample_calls : list (jsstring * value) :=
  [ (str "Form Submit!!", VObject [(str "form_id", VString (str "x"))]);
    (str "scroll_depth", VObject []) ].

Definition sample_run : list Action :=
  [ CallLogEvent (VString (str "Form Submit!!"))
      (VObject [(str "form_id", VString (str "x"))]);
    IntervalFires;
    CallLogEvent (VString (str "scroll_depth")) VUndefined;
    TimePasses (str "2024-05-01T10:00:02.000Z");
    PageSetsUmami quiet_collector ].

(** A page on which the collector never loads. *)
Definition lonely_run : list Action :=
  [ CallLogEvent (VString (str "form_submit")) VUndefined;
    IntervalFires; IntervalFires; PageSetsUmami UmamiUndefined;
    IntervalFires; IntervalFires;
    CallLogEvent (VNumber 7) VNull ].

(** No task of the run defines [window.umami]. *)
Definition leaves_umami_undefined (a : Action) : Prop :=
  match a with
  | PageSetsUmami (UmamiValue _) => False
  | _ => True
  end.

(** *** The gate, whatever [setupEventListeners] does *)

(** [become_ready], [init], the callback of the interval, the constructor
    and the event loop once more, with the call of
    [this.setupEventListeners()] left open: [setup] is any behaviour of
    that call, which may read the configuration and the document, install
    adapters, write to the console, and throw.  With
    [setupEventListeners] for [setup] these are the definitions above. *)
Definition become_ready_with (setup : M unit) (st : State)
  : option (result unit * State) :=
  match processEventQueue (set_initialized true st) with
  | Some (Return _, st') => Some (setup st')
  | other => other
  end.

Definition init_with (setup : M unit) (st : State) : option (result unit * State) :=
  if checkUmamiAvailable st then become_ready_with setup st
  else Some (Return tt, waitForUmami st).

Definition interval_callback_with (setup : M unit) (p : Poller) (st : State)
  : option (result unit * State) :=
  let attempts := (attempts p + 1)%Z in
  if checkUmamiAvailable st then
    become_ready_with setup
      (set_checkInterval
         (Some {| maxAttempts := maxAttempts p; attempts := attempts; live := false |}) st)
  else if (maxAttempts p <=? attempts)%Z then
    Some (logDebug [Arg (VString (str "Failed to initialize Umami after "));
                    Arg (VNumber (maxAttempts p)); Arg (VString (str " attempts"))]
            (set_checkInterval
               (Some {| maxAttempts := maxAttempts p; attempts := attempts; live := false |}) st))
  else
    Some (Return tt,
          set_checkInterval
            (Some {| maxAttempts := maxAttempts p; attempts := attempts; live := true |}) st).

Definition new_UmamiHelper_with (setup : M unit) (cfg : Config) (u : umami_obj)
    (now : jsstring) : option (result unit * State) :=
  let st := {| umami := u; clock := now; received := []; console := [];
               config := cfg; initialized := false; eventQueue := [];
               checkInterval := None; listeners := false |} in
  match logDebug [Arg (VString (str "Initialized with config:"))] st with
  | (Return _, st') => init_with setup st'
  | (Throw e, st') => Some (Throw e, st')
  end.

Definition step_with (setup : M unit) (a : Action) (st : State)
  : option (result unit * State) :=
  match a with
  | PageSetsUmami u => Some (Return tt, set_umami u st)
  | TimePasses now => Some (Return tt, set_clock now st)
  | CallLogEvent event properties => Some (logEvent event properties st)
  | IntervalFires =>
      match checkInterval st with
      | Some p => if live p then interval_callback_with setup p st else Some (Return tt, st)
      | None => Some (Return tt, st)
      end
  end.

Fixpoint run_with (setup : M unit) (acts : list Action) (st : State)
  : option (list exn * State) :=
  match acts with
  | [] => Some ([], st)
  | a :: rest =>
      match step_with setup a st with
      | None => None
      | Some (r, st') =>
          match run_with setup rest st' with
          | None => None
          | Some (es, st'') =>
              Some (match r with Throw e => e :: es | Return _ => es end, st'')
          end
      end
  end.

(** What the adapters leave alone while they are installed: the
    collector, the clock, the calls that [track] has received, the
    configuration, and the gate with its queue and its interval.  (The
    adapters call [logEvent] from their listeners, not while they are set
    up.) *)
Definition keeps_gate (setup : M unit) : Prop :=
  forall st,
    umami (snd (setup st)) = umami st
    /\ clock (snd (setup st)) = clock st
    /\ received (snd (setup st)) = received st
    /\ config (snd (setup st)) = config st
    /\ initialized (snd (setup st)) = initialized st
    /\ eventQueue (snd (setup st)) = eventQueue st
    /\ checkInterval (snd (setup st)) = checkInterval st.

End Helper.

(* ===================================================================== *)
(** ** The scroll-depth tracker *)
(* ===================================================================== *)

Module Scroll.

Import JsString JsValue.

(** The numbers of the scroll arithmetic, by their values: a double is
    [NaN], an infinity, or a rational (both zeros are the rational 0). *)
Inductive number : Type :=
| NaN
| NegInfinity
| PosInfinity
| Finite (q : Q).

(** The value of a double. *)
Definition number_of_float (x : PrimFloat.float) : number :=
  match FloatOps.Prim2SF x with
  | SpecFloat.S754_nan => NaN
  | SpecFloat.S754_infinity true => NegInfinity
  | SpecFloat.S754_infinity false => PosInfinity
  | SpecFloat.S754_zero _ => Finite 0
  | SpecFloat.S754_finite s m e =>
      let mantissa := if s then Z.neg m else Z.pos m in
      Finite (if (0 <=? e)%Z
              then inject_Z (mantissa * 2 ^ e)
              else Qmake mantissa (Z.to_pos (2 ^ (- e))))
  end.

(** The double of an integer literal: the nearest one, ties to even. *)
Definition float_of_Z (z : Z) : PrimFloat.float :=
  FloatOps.SF2Prim (SpecFloat.binary_normalize FloatOps.prec FloatOps.emax z 0 false).

(** What the tracker reads off the page: [window.scrollY],
    [document.documentElement.scrollHeight] and [clientHeight], all
    doubles, and [window.location.pathname]. *)
Record Page : Type := {
  scrollY : PrimFloat.float;
  scrollHeight : PrimFloat.float;
  clientHeight : PrimFloat.float;
  pathname : jsstring;
}.

(** [(scrolled / documentHeight) * 100], in the arithmetic of doubles: a
    page that cannot scroll gives [NaN] or an infinity. *)
Definition getScrollPercentage (pg : Page) : number :=
  let windowHeight := clientHeight pg in
  let documentHeight := PrimFloat.sub (scrollHeight pg) windowHeight in
  let scrolled := scrollY pg in
  number_of_float (PrimFloat.mul (PrimFloat.div scrolled documentHeight) (float_of_Z 100)).

(** [Math.round]: to the nearest integer, halves upwards; the result is
    a double again. *)
Definition Math_round (x : number) : number :=
  match x with
  | Finite q => Finite (inject_Z (Qfloor (q + (1 # 2))))
  | other => other
  end.

(** [x >= t] *)
Definition number_ge (x : number) (t : Z) : bool :=
  match x with
  | NaN | NegInfinity => false
  | PosInfinity => true
  | Finite q => Qle_bool (inject_Z t) q
  end.

(** [x < t] *)
Definition number_lt (x : number) (t : Z) : bool :=
  match x with
  | NaN | PosInfinity => false
  | NegInfinity => true
  | Finite q => negb (Qle_bool (inject_Z t) q)
  end.

(** The variables of the closure of [setupScrollTracking] and the
    listeners it has on the page: [attach_listens] is the listener
    registered with [once], [handleScroll_listens] the one that
    [attachScrollHandler] registers, [timeout_pending] the deferred
    check. *)
Record Tracker : Type := {
  thresholds : list Z;
  eventName : jsstring;
  reached : gset Z;
  scrollEventAttached : bool;
  handleScroll_listens : bool;
  attach_listens : bool;
  timeout_pending : bool;
}.

Definition set_reached (r : gset Z) (tr : Tracker) : Tracker :=
  {| thresholds := thresholds tr; eventName := eventName tr; reached := r;
     scrollEventAttached := scrollEventAttached tr;
     handleScroll_listens := handleScroll_listens tr;
     attach_listens := attach_listens tr; timeout_pending := timeout_pending tr |}.

Definition set_attached (tr : Tracker) : Tracker :=
  {| thresholds := thresholds tr; eventName := eventName tr; reached := reached tr;
     scrollEventAttached := true; handleScroll_listens := true;
     attach_listens := attach_listens tr; timeout_pending := timeout_pending tr |}.

Definition set_attach_listens (b : bool) (tr : Tracker) : Tracker :=
  {| thresholds := thresholds tr; eventName := eventName tr; reached := reached tr;
     scrollEventAttached := scrollEventAttached tr;
     handleScroll_listens := handleScroll_listens tr;
     attach_listens := b; timeout_pending := timeout_pending tr |}.

Definition set_timeout_pending (b : bool) (tr : Tracker) : Tracker :=
  {| thresholds := thresholds tr; eventName := eventName tr; reached := reached tr;
     scrollEventAttached := scrollEventAttached tr;
     handleScroll_listens := handleScroll_listens tr;
     attach_listens := attach_listens tr; timeout_pending := b |}.

(** [setupScrollTracking()] *)
Definition setupScrollTracking (ts : list Z) (name : jsstring) : Tracker :=
  {| thresholds := ts; eventName := name; reached := ∅;
     scrollEventAttached := false; handleScroll_listens := false;
     attach_listens := true; timeout_pending := true |}.

(** [thresholds.forEach(...)] at a rounded percentage: the thresholds for
    which [logEvent] is called, in the order of the calls, and the set
    [reached] after the loop. *)
Fixpoint forEach_threshold (percentage : number) (ts : list Z) (reached : gset Z)
  : list Z * gset Z :=
  match ts with
  | [] => ([], reached)
  | threshold :: rest =>
      if number_ge percentage threshold && negb (bool_decide (threshold ∈ reached))
      then
        let (fired, reached') := forEach_threshold percentage rest ({[threshold]} ∪ reached) in
        (threshold :: fired, reached')
      else forEach_threshold percentage rest reached
  end.

(** The arguments of the call
    [logEvent(eventName, { percentage: threshold, url: pathname })]. *)
Definition scroll_call (name : jsstring) (pg : Page) (threshold : Z) : value * value :=
  (VString name,
   VObject [(str "percentage", VNumber threshold); (str "url", VString (pathname pg))]).

(** [handleScroll()]: the calls of [logEvent] it makes and the tracker
    after it. *)
Definition handleScroll (pg : Page) (tr : Tracker) : list (value * value) * Tracker :=
  let percentage := Math_round (getScrollPercentage pg) in
  let (fired, reached') := forEach_threshold percentage (thresholds tr) (reached tr) in
  (List.map (scroll_call (eventName tr) pg) fired, set_reached reached' tr).

(** [attachScrollHandler()] *)
Definition attachScrollHandler (pg : Page) (tr : Tracker) : list (value * value) * Tracker :=
  if negb (scrollEventAttached tr)
  then handleScroll pg (set_attached tr)
  else ([], tr).

(** The callback of [setTimeout]. *)
Definition deferred_check (pg : Page) (tr : Tracker) : list (value * value) * Tracker :=
  let initialPercentage := getScrollPercentage pg in
  if number_lt initialPercentage 25
  then attachScrollHandler pg tr
  else ([], tr).

(** What the page does to the tracker: the timeout comes due, or the
    window is scrolled. *)
Inductive ScrollAction : Type :=
| TimeoutFires (pg : Page)
| Scrolled (pg : Page).

(** One task.  A scroll event goes to the listeners that were registered
    when it was dispatched, in the order of their registration: the one
    registered with [once] first, which is then gone. *)
Definition scroll_step (a : ScrollAction) (tr : Tracker) : list (value * value) * Tracker :=
  match a with
  | TimeoutFires pg =>
      if timeout_pending tr
      then deferred_check pg (set_timeout_pending false tr)
      else ([], tr)
  | Scrolled pg =>
      let listens := handleScroll_listens tr in
      let (calls1, tr1) :=
        if attach_listens tr
        then attachScrollHandler pg (set_attach_listens false tr)
        else ([], tr) in
      let (calls2, tr2) :=
        if listens then handleScroll pg tr1 else ([], tr1) in
      (calls1 ++ calls2, tr2)
  end.

(** A page load: the calls of [logEvent] of all its tasks, in order. *)
Fixpoint scroll_run (acts : list ScrollAction) (tr : Tracker) : list (value * value) * Tracker :=
  match acts with
  | [] => ([], tr)
  | a :: rest =>
      let (calls, tr1) := scroll_step a tr in
      let (calls', tr2) := scroll_run rest tr1 in
      (calls ++ calls', tr2)
  end.

(** The threshold a call of [logEvent] reports. *)
Definition threshold_of_call (c : value * value) : list Z :=
  match get (snd c) (str "percentage") with
  | VNumber t => [t]
  | _ => []
  end.

Definition fired (calls : list (value * value)) : list Z :=
  flat_map threshold_of_call calls.

(** What holds of a tracker whose calls so far reported [F]: [reached] is
    the set of the thresholds reported, they were reported in strictly
    ascending order, and no configured threshold below a reported one is
    left out. *)
Definition tracks (ts : list Z) (tr : Tracker) (F : list Z) : Prop :=
  thresholds tr = ts
  /\ (forall t, t ∈ reached tr <-> In t F)
  /\ StronglySorted Z.lt F
  /\ (forall t f, In t ts -> In f F -> (t <= f)%Z -> In t F).

(** The pages that the tasks of a run saw. *)
Definition page_of (a : ScrollAction) : Page :=
  match a with
  | TimeoutFires pg => pg
  | Scrolled pg => pg
  end.

(** The listeners of a tracker are in step with its flag:
    [handleScroll] listens exactly when [scrollEventAttached] is set, and
    the listener registered with [once] is gone only after it has run. *)
Definition listeners_in_step (tr : Tracker) : Prop :=
  handleScroll_listens tr = scrollEventAttached tr
  /\ (attach_listens tr = false -> scrollEventAttached tr = true).

(** A page of 1000 pixels of scrollable height, scrolled to [y]. *)
Definition page_at (y : Z) : Page :=
  {| scrollY := float_of_Z y; scrollHeight := float_of_Z 1800;
     clientHeight := float_of_Z 800; pathname := str "/" |}.

End Scroll.

(* ===================================================================== *)
(** ** The global instance *)
(* ===================================================================== *)

Module Registry.

Import JsString JsValue.

(** [window.UmamiHelper]: [instance] is [null] ([None]) or the instance.
    An instance is whatever the constructor returned; when it returns, it
    is known here by the configuration it was constructed with
    ([this.config]). *)
Record Registry : Type := {
  instance : option value;
  initialized : bool;
}.

(** The object the script installs. *)
Definition initial : Registry := {| instance := None; initialized := false |}.

(** [this.config] of [new UmamiHelper(options)], with the default of the
    parameter [options = {}]. *)
Definition constructed_config (options : value) : value :=
  mergeConfig config (match options with VUndefined => VObject [] | _ => options end).

(** What reaches the registry: a call of [UmamiHelper.init(config)], or
    the timeout of 0 ms set at the end of the script. *)
Inductive RegistryAction : Type :=
| CallInit (options : value)
| GraceTimeout.

(** [init(config)], with what it returns or throws.  [construct] is
    [new UmamiHelper(config)] on the page at hand: it returns the instance
    or throws.  The flag is set before the constructor runs, so an
    exception of the constructor leaves the flag set and [instance] as it
    was. *)
Definition init (construct : value -> Helper.result value) (options : value) (r : Registry)
  : Helper.result (option value) * Registry :=
  if negb (initialized r)
  then
    match construct options with
    | Helper.Return inst =>
        (Helper.Return (Some inst), {| instance := Some inst; initialized := true |})
    | Helper.Throw e => (Helper.Throw e, {| instance := instance r; initialized := true |})
    end
  else (Helper.Return (instance r), r).

(** The callback of the timeout: [new UmamiHelper()] has no argument, and
    the constructor sees [undefined]. *)
Definition grace_timeout (construct : value -> Helper.result value) (r : Registry)
  : Helper.result unit * Registry :=
  if negb (initialized r)
  then
    match construct VUndefined with
    | Helper.Return inst => (Helper.Return tt, {| instance := Some inst; initialized := true |})
    | Helper.Throw e => (Helper.Throw e, {| instance := instance r; initialized := true |})
    end
  else (Helper.Return tt, r).

Definition registry_step (construct : value -> Helper.result value) (a : RegistryAction)
    (r : Registry) : Registry :=
  match a with
  | CallInit options => snd (init construct options r)
  | GraceTimeout => snd (grace_timeout construct r)
  end.

Definition registry_run (construct : value -> Helper.result value)
    (acts : list RegistryAction) (r : Registry) : Registry :=
  fold_left (fun r a => registry_step construct a r) acts r.

(** The argument of the constructor, when an action is the first. *)
Definition options_of (a : RegistryAction) : value :=
  match a with
  | CallInit options => options
  | GraceTimeout => VUndefined
  end.

(** What the registry holds once a construction has been tried. *)
Definition outcome (construct : value -> Helper.result value) (options : value) : option value :=
  match construct options with
  | Helper.Return inst => Some inst
  | Helper.Throw _ => None
  end.

(** A constructor that returns, whatever its argument. *)
Definition returning : value -> Helper.result value :=
  fun options => Helper.Return (constructed_config options).

End Registry.

(* ===================================================================== *)
(** ** Adapters: event names, links, forms, scheduling ids *)
(* ===================================================================== *)

Module Adapters.

Import JsString JsValue.

Local Open Scope N_scope.

(** The attributes of an element, by name. *)
Definition attrs : Type := list (jsstring * jsstring).

(** [element.getAttribute(name)]: [None] is [null]. *)
Fixpoint getAttribute (name : jsstring) (a : attrs) : option jsstring :=
  match a with
  | [] => None
  | (n, v) :: rest => if jsstring_eq_dec n name then Some v else getAttribute name rest
  end.

(** [element.setAttribute(name, value)] *)
Fixpoint setAttribute (a : attrs) (name value : jsstring) : attrs :=
  match a with
  | [] => [(name, value)]
  | (n, v) :: rest =>
      if jsstring_eq_dec n name then (n, value) :: rest
      else (n, v) :: setAttribute rest name value
  end.

(** [getUmamiEvent(element, defaultEvent)]: [element?.dataset?.umamiEvent]
    is the attribute [data-umami-event]; it counts when it is a string
    that is not empty.  [None] is an element that was not found. *)
Definition getUmamiEvent (element : option attrs) (defaultEvent : jsstring) : jsstring :=
  match element with
  | Some a =>
      match getAttribute (str "data-umami-event") a with
      | Some (c :: s) => c :: s
      | _ => defaultEvent
      end
  | None => defaultEvent
  end.

(** [s.startsWith(prefix)] *)
Fixpoint startsWith (s prefix : jsstring) : bool :=
  match prefix, s with
  | [], _ => true
  | p :: ps, c :: cs => (c =? p) && startsWith cs ps
  | _ :: _, [] => false
  end.

(** [s.replace(pattern, '')] for a string [pattern]: the first occurrence
    is removed. *)
Fixpoint remove_first (s pattern : jsstring) : jsstring :=
  if startsWith s pattern then skipn (length pattern) s
  else match s with
       | [] => []
       | c :: rest => c :: remove_first rest pattern
       end.

(** An anchor: its resolved [href] and [host], and its attributes. *)
Record Anchor : Type := {
  href : jsstring;
  host : jsstring;
  a_attrs : attrs;
}.

Definition with_attrs (a : Anchor) (x : attrs) : Anchor :=
  {| href := href a; host := host a; a_attrs := x |}.

(** The body of the loop of [setupOutboundLinkTracking]. *)
Definition outbound_anchor (defaultEvent location_host : jsstring) (a : Anchor) : Anchor :=
  if startsWith (href a) (str "tel:") || startsWith (href a) (str "mailto:") then a
  else
    let eventName := getUmamiEvent (Some (a_attrs a)) defaultEvent in
    if jsstring_eq_dec (host a) location_host then a
    else
      let a1 := with_attrs a (setAttribute (a_attrs a) (str "data-umami-event") eventName) in
      with_attrs a1 (setAttribute (a_attrs a1) (str "data-umami-event-url") (href a1)).

Definition setupOutboundLinkTracking (defaultEvent location_host : jsstring)
    (anchors : list Anchor) : list Anchor :=
  List.map (outbound_anchor defaultEvent location_host) anchors.

(** The body of the loop of [setupContactLinkTracking]. *)
Definition contact_anchor (phoneEvent emailEvent : jsstring) (a : Anchor) : Anchor :=
  let a1 :=
    if startsWith (href a) (str "tel:") then
      let phoneNumber := remove_first (href a) (str "tel:") in
      let eventName := getUmamiEvent (Some (a_attrs a)) phoneEvent in
      let a' := with_attrs a (setAttribute (a_attrs a) (str "data-umami-event") eventName) in
      with_attrs a' (setAttribute (a_attrs a') (str "data-umami-event-number") phoneNumber)
    else a in
  if startsWith (href a1) (str "mailto:") then
    let emailAddress := remove_first (href a1) (str "mailto:") in
    let eventName := getUmamiEvent (Some (a_attrs a1)) emailEvent in
    let a' := with_attrs a1 (setAttribute (a_attrs a1) (str "data-umami-event") eventName) in
    with_attrs a' (setAttribute (a_attrs a') (str "data-umami-event-email") emailAddress)
  else a1.

Definition setupContactLinkTracking (phoneEvent emailEvent : jsstring)
    (anchors : list Anchor) : list Anchor :=
  List.map (contact_anchor phoneEvent emailEvent) anchors.

(** A form with the elements above it, the parent first. *)
Record Form : Type := {
  form_attrs : attrs;
  form_ancestors : list attrs;
}.

(** [form.closest('[data-umami-event]')]: the form itself or the nearest
    element above it that has the attribute, whatever its value. *)
Definition closest_umami_event (f : Form) : option attrs :=
  List.find (fun a => match getAttribute (str "data-umami-event") a with
                      | Some _ => true
                      | None => false
                      end)
    (form_attrs f :: form_ancestors f).

(** The event name that [setupFormTracking] binds to a form. *)
Definition form_event_name (defaultEvent : jsstring) (f : Form) : jsstring :=
  getUmamiEvent (closest_umami_event f) defaultEvent.

(** [x || 'None'] for the result of [getAttribute]. *)
Definition or_None (x : option jsstring) : jsstring :=
  match x with
  | Some (c :: s) => c :: s
  | _ => str "None"
  end.

(** The arguments of the call of [logEvent] in the [submit] listener. *)
Definition form_submit_call (eventName : jsstring) (f : Form) : value * value :=
  (VString eventName,
   VObject [ (str "form_name", VString (or_None (getAttribute (str "name") (form_attrs f))));
             (str "form_id", VString (or_None (getAttribute (str "id") (form_attrs f)))) ]).

Definition slash : N := 47.

(** The longest prefix without a slash: what [([^/]+)] captures. *)
Fixpoint take_segment (s : jsstring) : jsstring :=
  match s with
  | [] => []
  | c :: rest => if c =? slash then [] else c :: take_segment rest
  end.

(** A match of [/literal([^/]+)/] that starts at the head of [s]. *)
Definition match_here (literal s : jsstring) : option jsstring :=
  if startsWith s literal
  then match take_segment (skipn (length literal) s) with
       | [] => None
       | id => Some id
       end
  else None.

(** [extractIdFromUrl(url, /literal([^/]+)/)]: the capture of the
    leftmost match, [None] ([null]) when there is none. *)
Fixpoint extractIdFromUrl (url literal : jsstring) : option jsstring :=
  match match_here literal url with
  | Some id => Some id
  | None =>
      match url with
      | [] => None
      | _ :: rest => extractIdFromUrl rest literal
      end
  end.

(** The two patterns of the scheduling adapter. *)
Definition scheduled_events : jsstring := str "scheduled_events/".
Definition invitees : jsstring := str "invitees/".

(** A URI as the scheduling widget reports it. *)
Definition sample_uri : jsstring :=
  str "https://api.calendly.com/scheduled_events/AB12/invitees/XY9".

End Adapters.

(* ===================================================================== *)
(** ** The installation of the adapters *)
(* ===================================================================== *)

Module Setup.

Import JsString JsValue Adapters.

(** The seven sources, in the order in which [setupEventListeners] turns
    to them. *)
Inductive Source : Type :=
| Forms
| Typeform
| Calendly
| Hubspot
| ScrollDepth
| Outbound
| ContactLinks.

Definition sources : list Source :=
  [Forms; Typeform; Calendly; Hubspot; ScrollDepth; Outbound; ContactLinks].

(** The name of a source under [tracking]. *)
Definition source_key (s : Source) : jsstring :=
  match s with
  | Forms => str "forms"
  | Typeform => str "typeform"
  | Calendly => str "calendly"
  | Hubspot => str "hubspot"
  | ScrollDepth => str "scroll"
  | Outbound => str "outbound"
  | ContactLinks => str "contactLinks"
  end.

(** [undefined] and [null], the values without properties. *)
Definition nullish (v : value) : bool :=
  match v with
  | VUndefined | VNull => true
  | _ => false
  end.

(** [v.key] for any [v]: reading a property of [undefined] or of [null]
    throws a [TypeError]. *)
Definition read (v : value) (key : jsstring) : Helper.result value :=
  match v with
  | VUndefined => Helper.Throw (Helper.TypeError "Cannot read properties of undefined")
  | VNull => Helper.Throw (Helper.TypeError "Cannot read properties of null")
  | _ => Helper.Return (get v key)
  end.

(** An anchor that [setupContactLinkTracking] decorates. *)
Definition contact_link (a : Anchor) : bool :=
  startsWith (href a) (str "tel:") || startsWith (href a) (str "mailto:").

(** What can go wrong in the set-up of an adapter, once
    [tracking.<source>.enabled] has been read and found truthy.  The
    adapters of the forms, the embedded widgets, the scroll depth and the
    outbound links register listeners and read [eventName] off an object
    that is there; [setupContactLinkTracking] reads
    [tracking.contactLinks.eventName.phone] (or [.email]) at the first
    [tel:] or [mailto:] anchor of the document, before it writes any
    attribute.  The anchors are those of an HTML document, whose [href]
    is a string. *)
Definition setup_adapter (tracking : value) (anchors : list Anchor) (s : Source)
  : Helper.result unit :=
  match s with
  | ContactLinks =>
      if existsb contact_link anchors
      then
        match read (get (get tracking (str "contactLinks")) (str "eventName"))
                (str "phone") with
        | Helper.Return _ => Helper.Return tt
        | Helper.Throw e => Helper.Throw e
        end
      else Helper.Return tt
  | _ => Helper.Return tt
  end.

(** The body of [setupEventListeners] over the sources still to come:
    how it ends, and the adapters whose set-up has run to its end. *)
Fixpoint setup_sources (tracking : value) (anchors : list Anchor) (ss : list Source)
  : Helper.result unit * list Source :=
  match ss with
  | [] => (Helper.Return tt, [])
  | s :: rest =>
      match read tracking (source_key s) with
      | Helper.Throw e => (Helper.Throw e, [])
      | Helper.Return source =>
          match read source (str "enabled") with
          | Helper.Throw e => (Helper.Throw e, [])
          | Helper.Return enabled =>
              if truthy enabled
              then
                match setup_adapter tracking anchors s with
                | Helper.Throw e => (Helper.Throw e, [])
                | Helper.Return _ =>
                    let (r, installed) := setup_sources tracking anchors rest in
                    (r, s :: installed)
                end
              else setup_sources tracking anchors rest
          end
      end
  end.

(** [setupEventListeners()] on the configuration [cfg] ([this.config], an
    object) and a document with the anchors [anchors]. *)
Definition setupEventListeners (cfg : value) (anchors : list Anchor)
  : Helper.result unit * list Source :=
  let tracking := get cfg (str "tracking") in
  setup_sources tracking anchors sources.

(** [tracking.<source>.enabled] is truthy. *)
Definition enabled (tracking : value) (s : Source) : bool :=
  truthy (get (get tracking (source_key s)) (str "enabled")).

(** A source at which [setupEventListeners] cannot go on: [tracking] or
    [tracking.<source>] is [undefined] or [null], or the source is the
    contact links, it is enabled, the document has a contact link and
    [tracking.contactLinks.eventName] is [undefined] or [null]. *)
Definition source_fails (tracking : value) (anchors : list Anchor) (s : Source) : bool :=
  nullish tracking
  || nullish (get tracking (source_key s))
  || (enabled tracking s
      && match s with
         | ContactLinks =>
             existsb contact_link anchors
             && nullish (get (get tracking (str "contactLinks")) (str "eventName"))
         | _ => false
         end).

(** The line that [setupEventListeners] writes to the debug console
    before it sets up the adapter of a source. *)
Definition announcement (s : Source) : jsstring :=
  match s with
  | Forms => str "Initializing forms tracking"
  | Typeform => str "Initializing typeform tracking"
  | Calendly => str "Initializing calendly tracking"
  | Hubspot => str "Initializing hubspot tracking"
  | ScrollDepth => str "Initializing scroll tracking"
  | Outbound => str "Initializing outbound link tracking"
  | ContactLinks => str "Initializing contact link tracking"
  end.

(** The same body as a call on the instance, with the lines it writes to
    the debug console. *)
Fixpoint setup_sources_on (tracking : value) (anchors : list Anchor) (ss : list Source)
  : Helper.M unit :=
  match ss with
  | [] => Helper.ret tt
  | s :: rest =>
      match read tracking (source_key s) with
      | Helper.Throw e => Helper.throw e
      | Helper.Return source =>
          match read source (str "enabled") with
          | Helper.Throw e => Helper.throw e
          | Helper.Return enabled =>
              if truthy enabled
              then
                Helper.bind
                  (Helper.logDebug [Helper.Arg (VString (announcement s))])
                  (fun _ =>
                     match setup_adapter tracking anchors s with
                     | Helper.Throw e => Helper.throw e
                     | Helper.Return _ => setup_sources_on tracking anchors rest
                     end)
              else setup_sources_on tracking anchors rest
          end
      end
  end.

(** [this.setupEventListeners()] on an instance whose [this.config] is
    the value [cfg], in a document with the anchors [anchors];
    [listeners] records that the call was made. *)
Definition setupEventListeners_on (cfg : value) (anchors : list Anchor) : Helper.M unit :=
  fun st =>
    setup_sources_on (get cfg (str "tracking")) anchors sources
      (Helper.set_listeners true st).

(** [new UmamiHelper(options)] as its caller sees it, on a page where
    [window.umami] is defined ([present]) or not: the instance, known by
    its configuration, or the exception that leaves the constructor.
    Without [window.umami] the constructor only sets the interval. *)
Definition construct (present : bool) (anchors : list Anchor) (options : value)
  : Helper.result value :=
  let cfg := Registry.constructed_config options in
  if present
  then
    match fst (setupEventListeners cfg anchors) with
    | Helper.Return _ => Helper.Return cfg
    | Helper.Throw e => Helper.Throw e
    end
  else Helper.Return cfg.

(** Options that put a number where the [tracking] object belongs, and
    options that name a source and leave it [undefined]. *)
Definition number_for_tracking : value :=
  VObject [(str "tracking", VNumber 5)].

Definition undefined_typeform : value :=
  VObject [(str "tracking", VObject [(str "typeform", VUndefined)])].

(** A document with one link to a phone number. *)
Definition phone_link : Anchor :=
  {| href := str "tel:+4930123456"; host := str ""; a_attrs := [] |}.

End Setup.

(* ===================================================================== *)
(** ** Properties of event-name sanitization *)
(* ===================================================================== *)

Section Sanitize.

Import JsString.
Local Open Scope N_scope.

Local Ltac bool_to_prop H :=
  rewrite ?orb_true_iff, ?andb_true_iff, ?N.leb_le, ?N.eqb_eq in H.

Lemma in_class_not_white c : in_class c = true -> is_white c = false.
Proof.
  unfold in_class, is_white, underscore. intros H.
  apply not_true_iff_false. intros W.
  bool_to_prop H. bool_to_prop W. lia.
Qed.

Lemma in_class_lower_unit c : in_class c = true -> lower_unit c = [c].
Proof.
  unfold in_class, lower_unit, underscore. intros H. bool_to_prop H.
  destruct (N.leb_spec 65 c); destruct (N.leb_spec c 90); simpl; try lia;
    destruct (N.eqb_spec c 304); try lia;
    destruct (N.eqb_spec c 8490); try lia; reflexivity.
Qed.

Lemma toLowerCase_in_class s :
  Forall (fun c => in_class c = true) s -> toLowerCase s = s.
Proof.
  induction 1 as [|c s Hc _ IH]; [reflexivity|].
  unfold toLowerCase in *. simpl. rewrite IH, (in_class_lower_unit c Hc). reflexivity.
Qed.

Lemma replace_outside_class_in_class s :
  Forall (fun c => in_class c = true) (replace_outside_class s).
Proof.
  induction s as [|c s IH]; simpl; constructor; [|exact IH].
  destruct (in_class c) eqn:E; [exact E | reflexivity].
Qed.

Lemma replace_outside_class_id s :
  Forall (fun c => in_class c = true) s -> replace_outside_class s = s.
Proof.
  induction 1 as [|c s Hc _ IH]; [reflexivity|].
  simpl. rewrite Hc. f_equal. exact IH.
Qed.

Lemma replace_underscore_runs_in_class b s :
  Forall (fun c => in_class c = true) s ->
  Forall (fun c => in_class c = true) (replace_underscore_runs b s).
Proof.
  intros H. revert b. induction H as [|c s Hc _ IH]; intros b; simpl; [constructor|].
  destruct (c =? underscore) eqn:E.
  - destruct b; [apply IH|]. constructor; [reflexivity | apply IH].
  - constructor; [exact Hc | apply IH].
Qed.

(** After the scan no run is longer than one; the result of a scan started
    inside a run does not open with an underscore. *)
Lemma replace_underscore_runs_single b s :
  single_underscores b (replace_underscore_runs b s) = true.
Proof.
  revert b. induction s as [|c s IH]; intros b; simpl; [reflexivity|].
  destruct (c =? underscore) eqn:E.
  - destruct b; [apply IH|]. simpl. apply IH.
  - simpl. rewrite E. apply IH.
Qed.

Lemma replace_underscore_runs_id b s :
  single_underscores b s = true -> replace_underscore_runs b s = s.
Proof.
  revert b. induction s as [|c s IH]; intros b; simpl; [reflexivity|].
  destruct (c =? underscore) eqn:E.
  - apply N.eqb_eq in E. subst c. destruct b; simpl; [discriminate|].
    intros H. rewrite (IH true H). reflexivity.
  - intros H. rewrite (IH false H). reflexivity.
Qed.

Lemma single_underscores_no_pair b pre post :
  single_underscores b (pre ++ underscore :: underscore :: post) = false.
Proof.
  revert b. induction pre as [|c pre IH]; intros b; simpl.
  - apply andb_false_r.
  - destruct (c =? underscore); rewrite IH; [apply andb_false_r | reflexivity].
Qed.

Lemma trimStart_in_class s :
  Forall (fun c => in_class c = true) s -> trimStart s = s.
Proof.
  destruct 1 as [|c s Hc _]; [reflexivity|].
  simpl. rewrite (in_class_not_white c Hc). reflexivity.
Qed.

Lemma trim_in_class s :
  Forall (fun c => in_class c = true) s -> trim s = s.
Proof.
  intros H. unfold trim, trimEnd. rewrite (trimStart_in_class s H).
  rewrite trimStart_in_class by (apply Forall_rev; exact H).
  apply rev_involutive.
Qed.

(** The call to [trim] finds nothing to strip: white space has been turned
    into underscores before it runs. *)
Lemma sanitizeEventName_unfold event :
  sanitizeEventName event =
  replace_underscore_runs false (replace_outside_class (toLowerCase event)).
Proof.
  unfold sanitizeEventName. apply trim_in_class.
  apply replace_underscore_runs_in_class, replace_outside_class_in_class.
Qed.

Lemma sanitizeEventName_in_class event :
  Forall (fun c => in_class c = true) (sanitizeEventName event).
Proof.
  rewrite sanitizeEventName_unfold.
  apply replace_underscore_runs_in_class, replace_outside_class_in_class.
Qed.

Lemma sanitizeEventName_single event :
  single_underscores false (sanitizeEventName event) = true.
Proof. rewrite sanitizeEventName_unfold. apply replace_underscore_runs_single. Qed.

Lemma sanitizeEventName_no_pair event pre post :
  sanitizeEventName event <> pre ++ underscore :: underscore :: post.
Proof.
  intros E. pose proof (sanitizeEventName_single event) as H.
  rewrite E, single_underscores_no_pair in H. discriminate.
Qed.

Lemma sanitizeEventName_fixpoint s :
  Forall (fun c => in_class c = true) s ->
  single_underscores false s = true ->
  sanitizeEventName s = s.
Proof.
  intros Hc Hs. rewrite sanitizeEventName_unfold.
  rewrite (toLowerCase_in_class s Hc), (replace_outside_class_id s Hc).
  apply replace_underscore_runs_id, Hs.
Qed.






Example sanitizeEventName_form_submit :
  sanitizeEventName (str "Form Submit!!") = str "form_submit_".
Proof. vm_compute. reflexivity. Qed.



(** C3: sanitization is idempotent, its result matches [^[a-z0-9_]*$] and
    has no two underscores in a row. *)
Theorem sanitizeEventName_idempotent (x : jsstring) :
  sanitizeEventName (sanitizeEventName x) = sanitizeEventName x
  /\ Forall (fun c => in_class c = true) (sanitizeEventName x)
  /\ (forall pre post,
        sanitizeEventName x <> pre ++ underscore :: underscore :: post).
Proof.
  split; [|split].
  - apply sanitizeEventName_fixpoint;
      [apply sanitizeEventName_in_class | apply sanitizeEventName_single].
  - apply sanitizeEventName_in_class.
  - apply sanitizeEventName_no_pair.
Qed.

End Sanitize.

(* ===================================================================== *)
(** ** Properties of the configuration resolver *)
(* ===================================================================== *)

Section MergeConfig.

Import JsString JsValue.

Lemma lookup_assign_eq ps key x : lookup_prop key (assign ps key x) = Some x.
Proof.
  induction ps as [|[k v] ps IH]; simpl.
  - destruct (jsstring_eq_dec key key); [reflexivity | congruence].
  - destruct (jsstring_eq_dec k key) as [E|NE]; simpl.
    + rewrite E. destruct (jsstring_eq_dec key key); [reflexivity | congruence].
    + destruct (jsstring_eq_dec k key); [congruence | exact IH].
Qed.

Lemma lookup_assign_ne ps key key' x :
  key <> key' -> lookup_prop key' (assign ps key x) = lookup_prop key' ps.
Proof.
  intros NE. induction ps as [|[k v] ps IH]; simpl.
  - destruct (jsstring_eq_dec key key'); [congruence | reflexivity].
  - destruct (jsstring_eq_dec k key) as [E|NE']; simpl.
    + subst k. destruct (jsstring_eq_dec key key'); [congruence | reflexivity].
    + destruct (jsstring_eq_dec k key'); [reflexivity | exact IH].
Qed.

(** The loop inside [mergeConfig] is [merge_props]. *)
Lemma mergeConfig_object default_config ps :
  mergeConfig default_config (VObject ps) =
  VObject (merge_props default_config ps (own_props default_config)).
Proof.
  simpl. f_equal. generalize (own_props default_config) as merged.
  induction ps as [|[k v] ps IH]; intros merged; simpl; [reflexivity | apply IH].
Qed.

Lemma merge_props_absent default_config ps merged key :
  ~ In key (List.map fst ps) ->
  lookup_prop key (merge_props default_config ps merged) = lookup_prop key merged.
Proof.
  revert merged. induction ps as [|[k v] ps IH]; intros merged Hn; simpl; [reflexivity|].
  simpl in Hn. rewrite IH by tauto. apply lookup_assign_ne. tauto.
Qed.

Lemma merge_props_present default_config ps merged key v :
  List.NoDup (List.map fst ps) -> In (key, v) ps ->
  lookup_prop key (merge_props default_config ps merged) =
  Some (if merges_recursively v
        then mergeConfig (default_or_empty (get default_config key)) v
        else v).
Proof.
  revert merged. induction ps as [|[k w] ps IH]; intros merged Hnd Hin; [destruct Hin|].
  simpl in *. apply NoDup_cons_iff in Hnd as [Hk Hnd].
  destruct Hin as [E|Hin].
  - inversion E; subst k w. rewrite merge_props_absent by exact Hk.
    apply lookup_assign_eq.
  - apply IH; assumption.
Qed.

Lemma get_object ps key :
  get (VObject ps) key =
  match lookup_prop key ps with Some x => x | None => VUndefined end.
Proof. reflexivity. Qed.

(** C4: a default key that the overrides do not name is kept with its
    value.  An override held by an object is merged, key by key, against the
    default under its key, the empty object standing in for an absent
    default.  An override held by an array, a string, a number, a boolean or
    [undefined] replaces the default whole: the merged object holds the
    override itself, and for an array never a blend with the default's
    elements.  The first four parts say the same through the test that
    [mergeConfig] runs on each override, which [null] passes too. *)
Theorem mergeConfig_keeps_merges_replaces (defaults overrides : props) :
  List.NoDup (List.map fst overrides) ->
  let merged := own_props (mergeConfig (VObject defaults) (VObject overrides)) in
  (forall key, ~ In key (List.map fst overrides) ->
     lookup_prop key merged = lookup_prop key defaults)
  /\ (forall key v, In (key, v) overrides -> merges_recursively v = true ->
        lookup_prop key merged =
        Some (mergeConfig (default_or_empty (get (VObject defaults) key)) v))
  /\ (forall key v, In (key, v) overrides -> merges_recursively v = true ->
        lookup_prop key defaults = None ->
        lookup_prop key merged = Some (mergeConfig (VObject []) v))
  /\ (forall key v, In (key, v) overrides -> merges_recursively v = false ->
        lookup_prop key merged = Some v)
  /\ (forall key sub, In (key, VObject sub) overrides ->
        lookup_prop key merged =
        Some (mergeConfig (default_or_empty (get (VObject defaults) key)) (VObject sub)))
  /\ (forall key sub, In (key, VObject sub) overrides ->
        lookup_prop key defaults = None ->
        lookup_prop key merged = Some (mergeConfig (VObject []) (VObject sub)))
  /\ (forall key items, In (key, VArray items) overrides ->
        lookup_prop key merged = Some (VArray items))
  /\ (forall key s, In (key, VString s) overrides ->
        lookup_prop key merged = Some (VString s))
  /\ (forall key n, In (key, VNumber n) overrides ->
        lookup_prop key merged = Some (VNumber n))
  /\ (forall key b, In (key, VBool b) overrides ->
        lookup_prop key merged = Some (VBool b))
  /\ (forall key, In (key, VUndefined) overrides ->
        lookup_prop key merged = Some VUndefined).
Proof.
  intros Hnd merged. subst merged. rewrite mergeConfig_object. simpl own_props.
  repeat split.
  - intros key Hn. apply merge_props_absent, Hn.
  - intros key v Hin Hv. rewrite (merge_props_present _ _ _ key v Hnd Hin), Hv.
    reflexivity.
  - intros key v Hin Hv Habs. rewrite (merge_props_present _ _ _ key v Hnd Hin), Hv.
    rewrite get_object, Habs. reflexivity.
  - intros key v Hin Hv. rewrite (merge_props_present _ _ _ key v Hnd Hin), Hv.
    reflexivity.
  - intros key sub Hin. rewrite (merge_props_present _ _ _ key _ Hnd Hin).
    reflexivity.
  - intros key sub Hin Habs. rewrite (merge_props_present _ _ _ key _ Hnd Hin).
    rewrite get_object, Habs. reflexivity.
  - intros key items Hin. rewrite (merge_props_present _ _ _ key _ Hnd Hin).
    reflexivity.
  - intros key s Hin. rewrite (merge_props_present _ _ _ key _ Hnd Hin).
    reflexivity.
  - intros key n Hin. rewrite (merge_props_present _ _ _ key _ Hnd Hin).
    reflexivity.
  - intros key b Hin. rewrite (merge_props_present _ _ _ key _ Hnd Hin).
    reflexivity.
  - intros key Hin. rewrite (merge_props_present _ _ _ key _ Hnd Hin).
    reflexivity.
Qed.

Lemma example_options_NoDup : List.NoDup (List.map fst example_options).
Proof.
  repeat constructor; simpl; intros H;
    repeat (destruct H as [H|H]; [discriminate H|]); exact H.
Defined.

Lemma scroll_options_NoDup : List.NoDup (List.map fst scroll_options).
Proof.
  repeat constructor; simpl; intros H;
    repeat (destruct H as [H|H]; [discriminate H|]); exact H.
Defined.

Lemma mergeConfig_keeps_merges_replaces_witness :
  (List.NoDup (List.map fst example_options)
   /\ (let merged :=
         own_props (mergeConfig (VObject (own_props config)) (VObject example_options)) in
       lookup_prop (str "retryAttempts") merged = Some (VNumber 3)
       /\ lookup_prop (str "tracking") merged =
          Some (mergeConfig (get config (str "tracking")) (VObject tracking_options))
       /\ get (mergeConfig (get config (str "tracking")) (VObject tracking_options))
            (str "typeform")
          = VObject [ (str "enabled", VBool false);
                      (str "eventName", VString (str "typeform_submit")) ]
       /\ lookup_prop (str "debug") merged = Some (VBool true)))
  /\ (List.NoDup (List.map fst scroll_options)
      /\ (let merged :=
            own_props (mergeConfig (VObject scroll_defaults) (VObject scroll_options)) in
          lookup_prop (str "thresholds") scroll_defaults =
            Some (VArray [VNumber 25; VNumber 50; VNumber 75])
          /\ lookup_prop (str "thresholds") merged =
             Some (VArray [VNumber 20; VNumber 50; VNumber 80])
          /\ lookup_prop (str "eventName") merged =
             Some (VString (str "custom_scroll_event"))
          /\ lookup_prop (str "enabled") merged = Some (VBool true))).
Proof.
  split.
  - split; [exact example_options_NoDup|].
    destruct (mergeConfig_keeps_merges_replaces (own_props config) example_options
                example_options_NoDup)
      as (Hkeep & _ & _ & _ & Hobject & _ & _ & _ & _ & Hbool & _).
    split; [|split; [|split]].
    + rewrite Hkeep; [reflexivity|].
      simpl. intros H. repeat (destruct H as [H|H]; [discriminate H|]). exact H.
    + apply (Hobject (str "tracking") tracking_options). right; left; reflexivity.
    + vm_compute. reflexivity.
    + apply (Hbool (str "debug") true). left; reflexivity.
  - split; [exact scroll_options_NoDup|].
    destruct (mergeConfig_keeps_merges_replaces scroll_defaults scroll_options
                scroll_options_NoDup)
      as (_ & _ & _ & _ & _ & _ & Harray & Hstring & _ & Hbool & _).
    split; [reflexivity|]. split; [|split].
    + apply (Harray (str "thresholds")). right; left; reflexivity.
    + apply (Hstring (str "eventName")). right; right; left; reflexivity.
    + apply (Hbool (str "enabled")). left; reflexivity.
Defined.

(** C10, as the code has it: an override of [null] never stores [null].
    It stores a fresh object holding the own enumerable properties of the
    default under that key: the default itself when that is a non-array
    object, and the empty object when the default is absent or is
    [undefined], [null], a boolean or a number. *)
Theorem mergeConfig_null_override (defaults overrides : props) (key : jsstring) :
  List.NoDup (List.map fst overrides) ->
  In (key, VNull) overrides ->
  let merged := own_props (mergeConfig (VObject defaults) (VObject overrides)) in
  lookup_prop key merged =
    Some (VObject (own_props (default_or_empty (get (VObject defaults) key))))
  /\ (forall sub, lookup_prop key defaults = Some (VObject sub) ->
        lookup_prop key merged = Some (VObject sub))
  /\ (lookup_prop key defaults = None -> lookup_prop key merged = Some (VObject []))
  /\ (forall d, lookup_prop key defaults = Some d ->
        match d with
        | VUndefined | VNull | VBool _ | VNumber _ => lookup_prop key merged = Some (VObject [])
        | _ => True
        end).
Proof.
  intros Hnd Hin merged. subst merged. rewrite mergeConfig_object. simpl own_props.
  rewrite (merge_props_present _ _ _ key VNull Hnd Hin). simpl.
  split; [reflexivity|]. rewrite get_object.
  split; [|split].
  - intros sub E. rewrite E. reflexivity.
  - intros E. rewrite E. reflexivity.
  - intros d E. rewrite E. destruct d as [| |b|n| | |]; try exact I; try reflexivity.
    + unfold default_or_empty. simpl. destruct b; reflexivity.
    + unfold default_or_empty. simpl. destruct (n =? 0)%Z; reflexivity.
Qed.

Lemma null_options_NoDup : List.NoDup (List.map fst null_options).
Proof.
  repeat constructor; simpl; intros H;
    repeat (destruct H as [H|H]; [discriminate H|]); exact H.
Defined.

Lemma mergeConfig_null_override_witness :
  List.NoDup (List.map fst null_options)
  /\ In (str "tracking", VNull) null_options
  /\ lookup_prop (str "tracking")
       (own_props (mergeConfig (VObject (own_props config)) (VObject null_options)))
     = Some (get config (str "tracking")).
Proof.
  split; [exact null_options_NoDup|].
  assert (Hin : In (str "tracking", VNull) null_options) by (right; left; reflexivity).
  split; [exact Hin|].
  destruct (mergeConfig_null_override (own_props config) null_options (str "tracking")
              null_options_NoDup Hin) as (_ & Hobj & _).
  eapply Hobj. reflexivity.
Defined.

(** C10, as stated, fails: with the defaults of the script, [debug: null]
    leaves [debug] bound to an empty object, not to the default [false]. *)
Lemma mergeConfig_null_over_scalar :
  lookup_prop (str "debug") (own_props config) = Some (VBool false)
  /\ lookup_prop (str "debug")
       (own_props (mergeConfig config (VObject null_options)))
     = Some (VObject []).
Proof. split; vm_compute; reflexivity. Qed.

(** The gate fields of the configuration that the README's example
    options resolve to. *)
Example config_of_example_options :
  Helper.config_of (mergeConfig config (VObject example_options))
  = Some {| Helper.debug := true; Helper.retryAttempts := 3 |}.
Proof. vm_compute. reflexivity. Qed.

End MergeConfig.


(* ===================================================================== *)
(** ** Properties of the dispatcher *)
(* ===================================================================== *)

Section Dispatcher.

Import JsString JsValue Helper.

Lemma default_properties_idem p :
  default_properties (default_properties p) = default_properties p.
Proof. destruct p; reflexivity. Qed.

Lemma own_props_default p : own_props (default_properties p) = own_props p.
Proof. destruct p; reflexivity. Qed.

Lemma same_frame_refl st : same_frame st st.
Proof. unfold same_frame. tauto. Qed.

Lemma same_frame_trans st1 st2 st3 :
  same_frame st1 st2 -> same_frame st2 st3 -> same_frame st1 st3.
Proof. unfold same_frame. intuition congruence. Qed.

(** [logDebug] returns and touches the console only. *)
Lemma logDebug_spec args st :
  exists st', logDebug args st = (Return tt, st')
              /\ same_frame st st'
              /\ eventQueue st' = eventQueue st
              /\ received st' = received st.
Proof.
  unfold logDebug, same_frame. destruct (debug (config st)); eexists;
    (split; [reflexivity|]); simpl; tauto.
Qed.

Local Ltac run_logDebug :=
  match goal with
  | |- context [logDebug ?a ?s] =>
      let s' := fresh "st'" in
      let E := fresh "E" in
      let F := fresh "F" in
      let Q := fresh "Q" in
      let R := fresh "R" in
      destruct (logDebug_spec a s) as (s' & E & F & Q & R); rewrite E
  end.

(** C5: whatever the name, the properties and the state of the gate,
    [logEvent] ends with a normal return: what [sanitizeEventName] or
    [track] throw is caught. *)
Theorem logEvent_never_throws (event properties : value) (st : State) :
  fst (logEvent event properties st) = Return tt.
Proof.
  unfold logEvent. destruct (initialized st); simpl; [|reflexivity].
  unfold try_catch, bind.
  destruct (sanitize_value event st) as [[name|e] st1] eqn:Es;
    [|run_logDebug; reflexivity].
  unfold gets, umami_track.
  destruct (umami st1) as [|[track|]]; try (run_logDebug; reflexivity).
  destruct (track name _); run_logDebug; reflexivity.
Qed.

(** Both failures do occur and are caught: a name that is not a string
    makes [sanitizeEventName] throw before the collector is called, and a
    collector that throws has received the call. *)
Example logEvent_catches_sanitize_failure :
  sanitize_value (VNumber 7) ready_state
    = (Throw (TypeError "event.toLowerCase is not a function"), ready_state)
  /\ logEvent (VNumber 7) VUndefined ready_state = (Return tt, ready_state).
Proof. split; reflexivity. Qed.

Example logEvent_catches_track_failure :
  let st := set_umami (UmamiValue (Some (fun _ _ => Some (Thrown VNull)))) ready_state in
  fst (umami_track (str "a") (VObject []) st) = Throw (Thrown VNull)
  /\ fst (logEvent (VString (str "a")) VUndefined st) = Return tt
  /\ length (received (snd (logEvent (VString (str "a")) VUndefined st))) = 1%nat.
Proof. repeat split. Qed.

Lemma logEvent_not_initialized event properties st :
  initialized st = false ->
  logEvent event properties st =
  (Return tt, set_eventQueue (eventQueue st ++ [(event, default_properties properties)]) st).
Proof. intros H. unfold logEvent. rewrite H. reflexivity. Qed.

(** What a call on an initialized instance changes: the collector gets
    [forwarded], the console may get a line, nothing else moves. *)
Lemma logEvent_initialized event properties st :
  initialized st = true ->
  exists st', logEvent event properties st = (Return tt, st')
    /\ same_frame st st'
    /\ eventQueue st' = eventQueue st
    /\ received st' = received st ++ forwarded (umami st) (clock st) (event, properties).
Proof.
  intros H. unfold logEvent. rewrite H. simpl. unfold try_catch, bind, forwarded.
  destruct event as [| |b|n|name|items|ps]; simpl;
    try (run_logDebug; eexists; split; [reflexivity|]; rewrite app_nil_r; auto).
  unfold umami_track.
  destruct (umami st) as [|[track|]] eqn:U; simpl;
    try (run_logDebug; eexists; split; [reflexivity|]; rewrite app_nil_r; auto).
  destruct (track _ _); simpl; run_logDebug; eexists; (split; [reflexivity|]);
    unfold same_frame in *; simpl in *; rewrite R, Q; intuition congruence.
Qed.

(** C9: on an initialized instance whose collector can be called, the
    properties handed to [track] bind [timestamp] to the reading of the
    clock at the call, whatever [timestamp] the caller gave, and every
    other key to what the caller's mapping binds it to. *)
Theorem logEvent_timestamp_overrides (name : jsstring) (properties : props)
    (st : State) (track : jsstring -> value -> option exn) :
  initialized st = true ->
  umami st = UmamiValue (Some track) ->
  exists enhanced,
    received (snd (logEvent (VString name) (VObject properties) st)) =
      received st ++ [(sanitizeEventName name, VObject enhanced)]
    /\ lookup_prop (str "timestamp") enhanced = Some (VString (clock st))
    /\ (forall key, key <> str "timestamp" ->
          lookup_prop key enhanced = lookup_prop key properties).
Proof.
  intros Hi Hu.
  destruct (logEvent_initialized (VString name) (VObject properties) st Hi)
    as (st' & E & _ & _ & R).
  rewrite E. simpl. rewrite R. unfold forwarded. rewrite Hu. simpl.
  eexists. split; [reflexivity|]. split.
  - apply lookup_assign_eq.
  - intros key Hk. apply lookup_assign_ne. congruence.
Qed.

Lemma logEvent_timestamp_overrides_witness :
  initialized ready_state = true
  /\ umami ready_state = quiet_collector
  /\ exists enhanced,
       received (snd (logEvent (VString (str "Form Submit"))
                        (VObject [(str "timestamp", VString (str "yesterday"));
                                  (str "form_id", VString (str "x"))])
                        ready_state)) =
         [(sanitizeEventName (str "Form Submit"), VObject enhanced)]
       /\ lookup_prop (str "timestamp") enhanced = Some (VString (clock ready_state))
       /\ (forall key, key <> str "timestamp" ->
             lookup_prop key enhanced =
             lookup_prop key [(str "timestamp", VString (str "yesterday"));
                              (str "form_id", VString (str "x"))]).
Proof.
  split; [reflexivity|]. split; [reflexivity|].
  exact (logEvent_timestamp_overrides (str "Form Submit")
           [(str "timestamp", VString (str "yesterday"));
            (str "form_id", VString (str "x"))]
           ready_state (fun _ _ => None) eq_refl eq_refl).
Defined.

End Dispatcher.

(* ===================================================================== *)
(** ** Properties of the readiness gate and the queue *)
(* ===================================================================== *)

Section Gate.

Import JsString JsValue Helper.

(** On an initialized instance the loop empties the queue within as many
    rounds as there are events, handing each to the collector in turn. *)
Lemma processEventQueue_loop_initialized fuel st :
  initialized st = true ->
  (length (eventQueue st) <= fuel)%nat ->
  exists st', processEventQueue_loop fuel st = Some (Return tt, st')
    /\ same_frame st st'
    /\ eventQueue st' = []
    /\ received st' =
       received st ++ flat_map (forwarded (umami st) (clock st)) (eventQueue st).
Proof.
  revert st. induction fuel as [|fuel IH]; intros st Hi Hlen.
  - destruct (eventQueue st) as [|q rest] eqn:Q; [|simpl in Hlen; lia].
    exists st. simpl. rewrite Q. simpl. rewrite app_nil_r.
    auto using same_frame_refl.
  - simpl. destruct (eventQueue st) as [|[event properties] rest] eqn:Q.
    + exists st. simpl. rewrite app_nil_r. auto using same_frame_refl.
    + destruct (logEvent_initialized event properties (set_eventQueue rest st) Hi)
        as (st1 & E & F & Q1 & R1).
      rewrite E. simpl in Q1, R1.
      assert (Hi1 : initialized st1 = true) by (destruct F as (_ & _ & _ & F & _); rewrite F; exact Hi).
      destruct (IH st1 Hi1) as (st2 & E2 & F2 & Q2 & R2).
      { rewrite Q1. simpl in Hlen. lia. }
      exists st2. split; [exact E2|]. split.
      { clear - F F2. unfold same_frame in *. simpl in *. intuition congruence. }
      split; [exact Q2|].
      rewrite R2, R1, Q1. destruct F as (Fu & Fc & _). rewrite Fu, Fc. simpl.
      rewrite <- app_assoc. reflexivity.
Qed.

Lemma processEventQueue_initialized st :
  initialized st = true ->
  exists st', processEventQueue st = Some (Return tt, st')
    /\ same_frame st st'
    /\ eventQueue st' = []
    /\ received st' =
       received st ++ flat_map (forwarded (umami st) (clock st)) (eventQueue st).
Proof.
  intros Hi. apply processEventQueue_loop_initialized; [exact Hi | lia].
Qed.

(** The transition to READY: the queue is drained, once, in order. *)
Lemma become_ready_spec st :
  exists st', become_ready st = Some (Return tt, st')
    /\ initialized st' = true
    /\ umami st' = umami st /\ clock st' = clock st /\ config st' = config st
    /\ checkInterval st' = checkInterval st
    /\ eventQueue st' = []
    /\ received st' =
       received st ++ flat_map (forwarded (umami st) (clock st)) (eventQueue st).
Proof.
  unfold become_ready.
  destruct (processEventQueue_initialized (set_initialized true st) eq_refl)
    as (st1 & E & F & Q & R).
  rewrite E. unfold setupEventListeners, modify.
  exists (set_listeners true st1). split; [reflexivity|].
  unfold same_frame in F. simpl in *. intuition congruence.
Qed.

Lemma step_keeps_initialized a st r st' :
  step a st = Some (r, st') -> initialized st = true -> initialized st' = true.
Proof.
  intros Hs Hi. destruct a as [u|now|event properties|]; simpl in Hs.
  - inversion Hs; subst. exact Hi.
  - inversion Hs; subst. exact Hi.
  - destruct (logEvent_initialized event properties st Hi) as (st1 & E & F & _).
    rewrite E in Hs. inversion Hs; subst.
    destruct F as (_ & _ & _ & F & _). rewrite F. exact Hi.
  - destruct (checkInterval st) as [p|]; [|inversion Hs; subst; exact Hi].
    destruct (live p); [|inversion Hs; subst; exact Hi].
    unfold interval_callback in Hs.
    destruct (checkUmamiAvailable st).
    + match type of Hs with become_ready ?s = _ =>
        destruct (become_ready_spec s) as (st1 & E & Hi1 & _) end.
      rewrite E in Hs. inversion Hs; subst. exact Hi1.
    + destruct (_ <=? _)%Z.
      * match type of Hs with Some (logDebug ?a ?s) = _ =>
          destruct (logDebug_spec a s) as (st1 & E & F & _) end.
        rewrite E in Hs. inversion Hs; subst.
        destruct F as (_ & _ & _ & F & _). rewrite F. exact Hi.
      * inversion Hs; subst. exact Hi.
Qed.

Lemma run_keeps_initialized acts st es st' :
  run acts st = Some (es, st') -> initialized st = true -> initialized st' = true.
Proof.
  revert st es. induction acts as [|a acts IH]; intros st es Hr Hi; simpl in Hr.
  - inversion Hr; subst. exact Hi.
  - destruct (step a st) as [[r st1]|] eqn:Hs; [|discriminate].
    destruct (run acts st1) as [[es1 st2]|] eqn:Hr1; [|discriminate].
    inversion Hr; subst. eapply IH; [exact Hr1|].
    eapply step_keeps_initialized; eassumption.
Qed.

(** A task that leaves the gate closed: the queue grows by the call of
    [logEvent], if the task is one; the collector hears nothing and no
    exception reaches the page. *)
Lemma step_not_ready a st r st' :
  step a st = Some (r, st') -> initialized st' = false ->
  r = Return tt
  /\ eventQueue st' = eventQueue st ++ logged [a]
  /\ received st' = received st.
Proof.
  intros Hs Hi'.
  assert (Hi : initialized st = false).
  { destruct (initialized st) eqn:Hi; [|reflexivity].
    rewrite (step_keeps_initialized _ _ _ _ Hs Hi) in Hi'. discriminate. }
  destruct a as [u|now|event properties|]; simpl in Hs |- *.
  - inversion Hs; subst. simpl. rewrite app_nil_r. auto.
  - inversion Hs; subst. simpl. rewrite app_nil_r. auto.
  - rewrite (logEvent_not_initialized _ _ _ Hi) in Hs. inversion Hs; subst. auto.
  - rewrite app_nil_r.
    destruct (checkInterval st) as [p|]; [|inversion Hs; subst; auto].
    destruct (live p); [|inversion Hs; subst; auto].
    unfold interval_callback in Hs.
    destruct (checkUmamiAvailable st).
    + match type of Hs with become_ready ?s = _ =>
        destruct (become_ready_spec s) as (st1 & E & Hi1 & _) end.
      rewrite E in Hs. inversion Hs; subst. congruence.
    + destruct (_ <=? _)%Z.
      * match type of Hs with Some (logDebug ?a ?s) = _ =>
          destruct (logDebug_spec a s) as (st1 & E & F & Q & R) end.
        rewrite E in Hs. inversion Hs; subst. auto.
      * inversion Hs; subst. auto.
Qed.

Lemma logged_cons a acts : logged (a :: acts) = logged [a] ++ logged acts.
Proof. destruct a; reflexivity. Qed.

(** While the gate stays closed, the queue holds the calls of [logEvent]
    in the order in which they were made. *)
Lemma run_not_ready acts st es st' :
  run acts st = Some (es, st') -> initialized st' = false ->
  es = []
  /\ eventQueue st' = eventQueue st ++ logged acts
  /\ received st' = received st.
Proof.
  revert st es. induction acts as [|a acts IH]; intros st es Hr Hi'; simpl in Hr.
  - inversion Hr; subst. simpl. rewrite app_nil_r. auto.
  - destruct (step a st) as [[r st1]|] eqn:Hs; [|discriminate].
    destruct (run acts st1) as [[es1 st2]|] eqn:Hr1; [|discriminate].
    inversion Hr; subst. destruct (IH _ _ Hr1 Hi') as (He & Q & R).
    assert (Hi1 : initialized st1 = false).
    { destruct (initialized st1) eqn:Hi1; [|reflexivity].
      rewrite (run_keeps_initialized _ _ _ _ Hr1 Hi1) in Hi'. discriminate. }
    destruct (step_not_ready _ _ _ _ Hs Hi1) as (Er & Q1 & R1). subst.
    split; [reflexivity|]. split.
    + rewrite (logged_cons a acts), Q, Q1, app_assoc. reflexivity.
    + congruence.
Qed.

Lemma enhance_default properties now :
  enhance (default_properties properties) now = enhance properties now.
Proof. unfold enhance. rewrite own_props_default. reflexivity. Qed.

Lemma flat_map_forwarded track now calls :
  flat_map (forwarded (UmamiValue (Some track)) now)
    (List.map (fun c : jsstring * value => (VString (fst c), snd c)) calls) =
  List.map (fun c => (sanitizeEventName (fst c), enhance (snd c) now)) calls.
Proof.
  induction calls as [|[name properties] calls IH]; [reflexivity|].
  simpl. unfold forwarded at 1. simpl. rewrite enhance_default. f_equal. exact IH.
Qed.

(** The instance that [new UmamiHelper] leaves on a page without
    collector: not initialized, nothing queued, the interval set. *)
Lemma new_UmamiHelper_absent cfg now :
  exists st0, new_UmamiHelper cfg UmamiUndefined now = Some (Return tt, st0)
    /\ umami st0 = UmamiUndefined
    /\ initialized st0 = false
    /\ eventQueue st0 = []
    /\ received st0 = []
    /\ checkInterval st0 =
       Some {| maxAttempts := retryAttempts cfg; attempts := 0; live := true |}.
Proof.
  unfold new_UmamiHelper, logDebug. simpl.
  destruct (debug cfg); simpl; eexists; (split; [reflexivity|]); simpl; auto 10.
Qed.

(** C1: the events logged between the construction on a page without
    collector and a firing of the still live interval that finds a
    collector with a callable [track] are handed to [track] at that
    firing, each once, in the order of the calls of [logEvent], with
    sanitized names and stamped properties; the queue is left empty and
    the interval cleared. *)
Theorem queued_events_forwarded_in_order
    (cfg : Config) (now : jsstring) (st0 st : State) (acts : list Action)
    (es : list exn) (calls : list (jsstring * value)) (p : Poller)
    (track : jsstring -> value -> option exn) :
  new_UmamiHelper cfg UmamiUndefined now = Some (Return tt, st0) ->
  run acts st0 = Some (es, st) ->
  initialized st = false ->
  checkInterval st = Some p ->
  live p = true ->
  umami st = UmamiValue (Some track) ->
  logged acts = List.map (fun c => (VString (fst c), snd c)) calls ->
  exists st' p',
    step IntervalFires st = Some (Return tt, st')
    /\ es = []
    /\ received st' =
       List.map (fun c => (sanitizeEventName (fst c), enhance (snd c) (clock st))) calls
    /\ eventQueue st' = []
    /\ initialized st' = true
    /\ checkInterval st' = Some p' /\ live p' = false.
Proof.
  intros Hnew Hrun Hi Hc Hl Hu Hlog.
  destruct (new_UmamiHelper_absent cfg now) as (st0' & E0 & _ & _ & Q0 & R0 & _).
  rewrite Hnew in E0. inversion E0; subst st0'. clear E0.
  destruct (run_not_ready _ _ _ _ Hrun Hi) as (He & Q & R).
  rewrite Q0 in Q. rewrite R0 in R. simpl in Q.
  simpl. rewrite Hc, Hl. unfold interval_callback, checkUmamiAvailable. rewrite Hu.
  match goal with |- context [become_ready ?s] =>
    destruct (become_ready_spec s) as (st' & E & Hi' & _ & _ & _ & Hc' & Q' & R') end.
  rewrite E. simpl in Hc', R'.
  exists st'. eexists. split; [reflexivity|]. split; [exact He|].
  split; [|split; [exact Q'|split; [exact Hi'|split; [exact Hc'|reflexivity]]]].
  rewrite R', R, Q, Hu, Hlog. simpl. apply flat_map_forwarded.
Qed.

Lemma iter_poll_absent k m :
  Nat.iter k poll_absent {| maxAttempts := m; attempts := 0; live := true |} =
  {| maxAttempts := m;
     attempts := Z.min (Z.of_nat k) (Z.max 1 m);
     live := (Z.of_nat k <? Z.max 1 m)%Z |}.
Proof.
  induction k as [|k IH].
  - simpl. f_equal; [lia|]. symmetry. apply Z.ltb_lt. lia.
  - rewrite Nat.iter_succ, IH. unfold poll_absent. simpl.
    destruct (Z.ltb_spec (Z.of_nat k) (Z.max 1 m)) as [Hlt|Hge].
    + f_equal; [lia|].
      destruct (Z.leb_spec m (Z.min (Z.of_nat k) (Z.max 1 m) + 1));
        destruct (Z.ltb_spec (Z.of_nat (S k)) (Z.max 1 m)); simpl; try reflexivity; lia.
    + f_equal; [lia|]. symmetry. apply Z.ltb_ge. lia.
Qed.

(** As long as no task defines [window.umami], the gate stays closed and
    every firing of the interval is [poll_absent]. *)
Lemma run_never_present acts st p :
  umami st = UmamiUndefined ->
  initialized st = false ->
  checkInterval st = Some p ->
  Forall leaves_umami_undefined acts ->
  exists es st', run acts st = Some (es, st')
    /\ umami st' = UmamiUndefined
    /\ initialized st' = false
    /\ checkInterval st' = Some (Nat.iter (fires acts) poll_absent p).
Proof.
  intros Hu Hi Hc Hall. revert st p Hu Hi Hc.
  induction Hall as [|a acts Ha _ IH]; intros st p Hu Hi Hc.
  - exists [], st. simpl. auto.
  - assert (Hstep : exists r st1, step a st = Some (r, st1)
              /\ umami st1 = UmamiUndefined /\ initialized st1 = false
              /\ checkInterval st1 = Some (Nat.iter (fires [a]) poll_absent p)).
    { destruct a as [[|track]|t|event properties|]; simpl in Ha |- *.
      - do 2 eexists. split; [reflexivity|]. simpl. auto.
      - destruct Ha.
      - do 2 eexists. split; [reflexivity|]. simpl. auto.
      - rewrite (logEvent_not_initialized _ _ _ Hi).
        do 2 eexists. split; [reflexivity|]. simpl. auto.
      - rewrite Hc. unfold poll_absent. destruct (live p) eqn:Hl.
        + unfold interval_callback, checkUmamiAvailable. rewrite Hu.
          destruct (_ <=? _)%Z; simpl.
          * match goal with |- context [logDebug ?a ?s] =>
              destruct (logDebug_spec a s) as (st1 & E & F & _) end.
            rewrite E. do 2 eexists. split; [reflexivity|].
            unfold same_frame in F. simpl in F. intuition congruence.
          * do 2 eexists. split; [reflexivity|]. simpl. auto.
        + do 2 eexists. split; [reflexivity|]. auto. }
    destruct Hstep as (r & st1 & Hs & Hu1 & Hi1 & Hc1).
    destruct (IH st1 _ Hu1 Hi1 Hc1) as (es & st' & Hr & Hu' & Hi' & Hc').
    simpl. rewrite Hs, Hr. do 2 eexists. split; [reflexivity|].
    split; [exact Hu'|]. split; [exact Hi'|]. rewrite Hc'. f_equal.
    destruct a; try reflexivity.
    change (fires (IntervalFires :: acts)) with (S (fires acts)).
    rewrite Nat.iter_succ_r. reflexivity.
Qed.

(** C6, as the code has it: on a page where [window.umami] is never
    defined, the callback of the interval runs [max 1 retryAttempts] times
    and no more, the interval being cleared by its last run; [track] is
    never called, no exception reaches the page, the instance is never
    initialized and every call of [logEvent] is put in the queue. *)
Theorem collector_never_present (cfg : Config) (now : jsstring) (acts : list Action) :
  Forall leaves_umami_undefined acts ->
  exists st0 st,
    new_UmamiHelper cfg UmamiUndefined now = Some (Return tt, st0)
    /\ run acts st0 = Some ([], st)
    /\ checkInterval st =
       Some {| maxAttempts := retryAttempts cfg;
               attempts := Z.min (Z.of_nat (fires acts)) (Z.max 1 (retryAttempts cfg));
               live := (Z.of_nat (fires acts) <? Z.max 1 (retryAttempts cfg))%Z |}
    /\ received st = []
    /\ initialized st = false
    /\ eventQueue st = logged acts
    /\ (forall event properties,
          logEvent event properties st =
          (Return tt,
           set_eventQueue (eventQueue st ++ [(event, default_properties properties)]) st)).
Proof.
  intros Hall.
  destruct (new_UmamiHelper_absent cfg now) as (st0 & E0 & Hu0 & Hi0 & Q0 & R0 & Hc0).
  destruct (run_never_present acts st0 _ Hu0 Hi0 Hc0 Hall) as (es & st & Hr & Hu & Hi & Hc).
  destruct (run_not_ready _ _ _ _ Hr Hi) as (He & Q & R). subst es.
  exists st0, st. split; [exact E0|]. split; [exact Hr|].
  split; [rewrite Hc; f_equal; apply iter_poll_absent|].
  split; [congruence|]. split; [exact Hi|].
  split; [rewrite Q, Q0; reflexivity|].
  intros event properties. apply logEvent_not_initialized, Hi.
Qed.

Lemma queued_events_forwarded_in_order_witness :
  exists st0 st,
    new_UmamiHelper default_gate_config UmamiUndefined (str "2024-05-01T10:00:00.000Z")
      = Some (Return tt, st0)
    /\ run sample_run st0 = Some ([], st)
    /\ initialized st = false
    /\ checkInterval st = Some {| maxAttempts := 3; attempts := 1; live := true |}
    /\ umami st = quiet_collector
    /\ logged sample_run = List.map (fun c => (VString (fst c), snd c)) sample_calls
    /\ exists st' p',
         step IntervalFires st = Some (Return tt, st')
         /\ @nil exn = []
         /\ received st' =
            List.map (fun c => (sanitizeEventName (fst c), enhance (snd c) (clock st)))
              sample_calls
         /\ eventQueue st' = []
         /\ initialized st' = true
         /\ checkInterval st' = Some p' /\ live p' = false.
Proof.
  do 2 eexists.
  split; [reflexivity|]. split; [reflexivity|]. split; [reflexivity|].
  split; [reflexivity|]. split; [reflexivity|]. split; [reflexivity|].
  eapply (queued_events_forwarded_in_order default_gate_config
            (str "2024-05-01T10:00:00.000Z") _ _ sample_run [] sample_calls
            {| maxAttempts := 3; attempts := 1; live := true |} (fun _ _ => None));
    reflexivity.
Defined.

Lemma collector_never_present_witness :
  Forall leaves_umami_undefined lonely_run
  /\ exists st0 st,
       new_UmamiHelper default_gate_config UmamiUndefined (str "2024-05-01T10:00:00.000Z")
         = Some (Return tt, st0)
       /\ run lonely_run st0 = Some ([], st)
       /\ checkInterval st =
          Some {| maxAttempts := retryAttempts default_gate_config;
                  attempts := Z.min (Z.of_nat (fires lonely_run))
                                (Z.max 1 (retryAttempts default_gate_config));
                  live := (Z.of_nat (fires lonely_run)
                           <? Z.max 1 (retryAttempts default_gate_config))%Z |}
       /\ received st = []
       /\ initialized st = false
       /\ eventQueue st = logged lonely_run
       /\ (forall event properties,
             logEvent event properties st =
             (Return tt,
              set_eventQueue (eventQueue st ++ [(event, default_properties properties)]) st)).
Proof.
  assert (H : Forall leaves_umami_undefined lonely_run)
    by (repeat constructor).
  split; [exact H|].
  exact (collector_never_present default_gate_config (str "2024-05-01T10:00:00.000Z")
           lonely_run H).
Defined.

(** C6, as stated, fails: with [retryAttempts] at 0 the interval is live
    after the construction and its callback runs once before it is
    cleared, which is one poll more than [retryAttempts]. *)
Lemma zero_retryAttempts_polls_once :
  exists st0 st,
    new_UmamiHelper {| debug := false; retryAttempts := 0 |} UmamiUndefined (str "")
      = Some (Return tt, st0)
    /\ checkInterval st0 = Some {| maxAttempts := 0; attempts := 0; live := true |}
    /\ run [IntervalFires] st0 = Some ([], st)
    /\ checkInterval st = Some {| maxAttempts := 0; attempts := 1; live := false |}.
Proof.
  do 2 eexists.
  split; [reflexivity|]. split; [reflexivity|]. split; reflexivity.
Qed.

End Gate.

(* ===================================================================== *)
(** ** Properties of the scroll-depth tracker *)
(* ===================================================================== *)

Section ScrollDepth.

Import JsString JsValue Scroll.
Local Open Scope Z_scope.

Lemma number_ge_mono x t t' :
  t' <= t -> number_ge x t = true -> number_ge x t' = true.
Proof.
  intros Hle. destruct x as [| | |q]; simpl; try discriminate; try reflexivity.
  rewrite !Qle_bool_iff. intros H.
  apply Qle_trans with (inject_Z t); [|exact H].
  rewrite <- Zle_Qle. exact Hle.
Qed.

Lemma forEach_threshold_fired p l R t :
  In t (fst (forEach_threshold p l R)) <-> In t l /\ number_ge p t = true /\ t ∉ R.
Proof.
  revert R. induction l as [|h l IH]; intros R; simpl; [tauto|].
  destruct (number_ge p h) eqn:Hge; simpl.
  - destruct (bool_decide (h ∈ R)) eqn:Hin; simpl.
    + apply bool_decide_eq_true in Hin. rewrite IH.
      split; [tauto|]. intros [[->|H] [H1 H2]]; [contradiction | tauto].
    + apply bool_decide_eq_false in Hin.
      destruct (forEach_threshold p l ({[h]} ∪ R)) as [f R'] eqn:E. simpl.
      specialize (IH ({[h]} ∪ R)). rewrite E in IH. simpl in IH. rewrite IH.
      split.
      * intros [->|(H1 & H2 & H3)]; [tauto|]. split; [tauto|]. split; [exact H2|].
        set_solver.
      * intros ([->|H1] & H2 & H3); [tauto|].
        destruct (Z.eq_dec h t) as [->|Hne]; [tauto|]. right. split; [exact H1|].
        split; [exact H2|]. set_solver.
  - rewrite IH. split; [tauto|]. intros [[->|H] [H1 H2]]; [congruence | tauto].
Qed.

Lemma forEach_threshold_reached p l R t :
  t ∈ snd (forEach_threshold p l R) <-> t ∈ R \/ In t (fst (forEach_threshold p l R)).
Proof.
  revert R. induction l as [|h l IH]; intros R; simpl; [tauto|].
  destruct (number_ge p h && negb (bool_decide (h ∈ R))); [|apply IH].
  specialize (IH ({[h]} ∪ R)).
  destruct (forEach_threshold p l ({[h]} ∪ R)) as [f R'] eqn:E. simpl in *.
  rewrite IH. rewrite elem_of_union, elem_of_singleton. intuition congruence.
Qed.

Lemma forEach_threshold_sorted p l R :
  StronglySorted Z.le l -> StronglySorted Z.lt (fst (forEach_threshold p l R)).
Proof.
  intros Hs. revert R. induction Hs as [|h l Hs IH Hall]; intros R; simpl; [constructor|].
  destruct (number_ge p h && negb (bool_decide (h ∈ R))); [|apply IH].
  pose proof (forEach_threshold_fired p l ({[h]} ∪ R)) as Hf.
  specialize (IH ({[h]} ∪ R)).
  destruct (forEach_threshold p l ({[h]} ∪ R)) as [f R'] eqn:E. simpl in *.
  constructor; [exact IH|].
  apply List.Forall_forall. intros t Ht. apply Hf in Ht as (H1 & _ & H3).
  rewrite List.Forall_forall in Hall. specialize (Hall t H1).
  assert (h <> t) by set_solver. lia.
Qed.

Lemma forEach_threshold_ext p l R R' :
  (forall t, In t l -> (t ∈ R <-> t ∈ R')) ->
  fst (forEach_threshold p l R) = fst (forEach_threshold p l R').
Proof.
  revert R R'. induction l as [|h l IH]; intros R R' H; simpl; [reflexivity|].
  assert (Hh : bool_decide (h ∈ R) = bool_decide (h ∈ R'))
    by (apply bool_decide_ext, H; left; reflexivity).
  rewrite Hh. destruct (number_ge p h && negb (bool_decide (h ∈ R'))).
  - specialize (IH ({[h]} ∪ R) ({[h]} ∪ R')).
    destruct (forEach_threshold p l ({[h]} ∪ R)) as [f1 R1].
    destruct (forEach_threshold p l ({[h]} ∪ R')) as [f2 R2]. simpl in *.
    f_equal. apply IH. intros t Ht. specialize (H t (or_intror Ht)). set_solver.
  - apply IH. intros t Ht. apply H. right. exact Ht.
Qed.

(** Over thresholds without repetition the loop is a filter. *)
Lemma forEach_threshold_filter p l R :
  List.NoDup l ->
  fst (forEach_threshold p l R) =
  List.filter (fun t => number_ge p t && negb (bool_decide (t ∈ R))) l.
Proof.
  intros Hnd. revert R. induction Hnd as [|h l Hh Hnd IH]; intros R; simpl; [reflexivity|].
  destruct (number_ge p h && negb (bool_decide (h ∈ R))); [|apply IH].
  rewrite <- IH.
  rewrite <- (forEach_threshold_ext p l ({[h]} ∪ R) R).
  - destruct (forEach_threshold p l ({[h]} ∪ R)). reflexivity.
  - intros t Ht. assert (h <> t) by (intros ->; contradiction). set_solver.
Qed.

Lemma fired_scroll_calls name pg l : fired (List.map (scroll_call name pg) l) = l.
Proof.
  induction l as [|t l IH]; [reflexivity|].
  unfold fired in *. simpl. f_equal. exact IH.
Qed.

Lemma fired_app c1 c2 : fired (c1 ++ c2) = fired c1 ++ fired c2.
Proof. unfold fired. apply flat_map_app. Qed.

(** One pass of [handleScroll], in terms of the loop. *)
Lemma handleScroll_spec pg tr :
  fired (fst (handleScroll pg tr)) =
    fst (forEach_threshold (Math_round (getScrollPercentage pg)) (thresholds tr) (reached tr))
  /\ reached (snd (handleScroll pg tr)) =
    snd (forEach_threshold (Math_round (getScrollPercentage pg)) (thresholds tr) (reached tr))
  /\ thresholds (snd (handleScroll pg tr)) = thresholds tr.
Proof.
  unfold handleScroll.
  destruct (forEach_threshold _ (thresholds tr) (reached tr)) as [f R']. simpl.
  rewrite fired_scroll_calls. auto.
Qed.

Lemma StronglySorted_lt_app (l1 l2 : list Z) :
  StronglySorted Z.lt l1 -> StronglySorted Z.lt l2 ->
  (forall x y, In x l1 -> In y l2 -> x < y) ->
  StronglySorted Z.lt (l1 ++ l2).
Proof.
  intros H1 H2 H. induction H1 as [|a l1 H1 IH Ha]; simpl; [exact H2|].
  constructor.
  - apply IH. intros x y Hx Hy. apply H; [right; exact Hx | exact Hy].
  - apply List.Forall_app. split; [exact Ha|].
    apply List.Forall_forall. intros y Hy. apply H; [left; reflexivity | exact Hy].
Qed.

(** A pass of [handleScroll] keeps [tracks]. *)
Lemma handleScroll_tracks ts pg tr F :
  StronglySorted Z.le ts ->
  tracks ts tr F ->
  tracks ts (snd (handleScroll pg tr)) (F ++ fired (fst (handleScroll pg tr))).
Proof.
  intros Hs (Ht & Hr & HF & Hd).
  destruct (handleScroll_spec pg tr) as (Ef & Er & Et).
  set (p := Math_round (getScrollPercentage pg)) in *.
  unfold tracks. rewrite Et, Er, Ef, Ht.
  pose proof (forEach_threshold_fired p ts (reached tr)) as Hf.
  split; [reflexivity|]. split; [|split].
  - intros t. rewrite forEach_threshold_reached, List.in_app_iff, Hr. reflexivity.
  - apply StronglySorted_lt_app; [exact HF | apply forEach_threshold_sorted, Hs|].
    intros x y Hx Hy. apply Hf in Hy as (Hy1 & Hy2 & Hy3).
    destruct (Z.lt_ge_cases x y) as [Hlt|Hge]; [exact Hlt|].
    exfalso. apply Hy3. apply Hr. apply (Hd y x); assumption.
  - intros t f Hts Hin Hle. apply List.in_app_iff.
    apply List.in_app_iff in Hin as [Hin|Hin].
    + left. apply (Hd t f); assumption.
    + apply Hf in Hin as (_ & Hge & _).
      destruct (decide (t ∈ reached tr)) as [Hm|Hm]; [left; apply Hr, Hm|].
      right. apply Hf. split; [exact Hts|]. split; [|exact Hm].
      apply (number_ge_mono p f t Hle Hge).
Qed.

Lemma attachScrollHandler_tracks ts pg tr F :
  StronglySorted Z.le ts ->
  tracks ts tr F ->
  tracks ts (snd (attachScrollHandler pg tr))
    (F ++ fired (fst (attachScrollHandler pg tr))).
Proof.
  intros Hs H. unfold attachScrollHandler.
  destruct (scrollEventAttached tr); simpl.
  - rewrite app_nil_r. exact H.
  - apply handleScroll_tracks; [exact Hs | exact H].
Qed.

Lemma scroll_step_tracks ts a tr F :
  StronglySorted Z.le ts ->
  tracks ts tr F ->
  tracks ts (snd (scroll_step a tr)) (F ++ fired (fst (scroll_step a tr))).
Proof.
  intros Hs H. destruct a as [pg|pg]; simpl.
  - destruct (timeout_pending tr); simpl; [|rewrite app_nil_r; exact H].
    unfold deferred_check. destruct (number_lt _ _); simpl.
    + apply attachScrollHandler_tracks; [exact Hs | exact H].
    + rewrite app_nil_r. exact H.
  - assert (H1 : tracks ts
                   (snd (if attach_listens tr
                         then attachScrollHandler pg (set_attach_listens false tr)
                         else ([], tr)))
                   (F ++ fired (fst (if attach_listens tr
                                     then attachScrollHandler pg (set_attach_listens false tr)
                                     else ([], tr))))).
    { destruct (attach_listens tr); simpl.
      - apply attachScrollHandler_tracks; [exact Hs | exact H].
      - rewrite app_nil_r. exact H. }
    destruct (if attach_listens tr
              then attachScrollHandler pg (set_attach_listens false tr)
              else ([], tr)) as [calls1 tr1]. simpl in H1.
    destruct (handleScroll_listens tr).
    + pose proof (handleScroll_tracks ts pg tr1 _ Hs H1) as H2.
      destruct (handleScroll pg tr1) as [calls2 tr2]. simpl in *.
      rewrite fired_app, app_assoc. exact H2.
    + simpl. rewrite app_nil_r. exact H1.
Qed.

Lemma scroll_run_tracks ts acts tr F :
  StronglySorted Z.le ts ->
  tracks ts tr F ->
  tracks ts (snd (scroll_run acts tr)) (F ++ fired (fst (scroll_run acts tr))).
Proof.
  intros Hs. revert tr F. induction acts as [|a acts IH]; intros tr F H; simpl.
  - rewrite app_nil_r. exact H.
  - pose proof (scroll_step_tracks ts a tr F Hs H) as H1.
    destruct (scroll_step a tr) as [calls tr1]. simpl in H1.
    specialize (IH tr1 _ H1).
    destruct (scroll_run acts tr1) as [calls' tr2]. simpl in *.
    rewrite fired_app, app_assoc. exact IH.
Qed.

Lemma setupScrollTracking_tracks ts name : tracks ts (setupScrollTracking ts name) [].
Proof.
  unfold tracks. simpl. split; [reflexivity|]. split; [|split].
  - intros t. set_solver.
  - constructor.
  - intros t f _ [].
Qed.

(** C7: for thresholds configured in ascending order, the thresholds
    reported over a page load, in the order of the calls of [logEvent],
    are strictly ascending, so each is reported at most once; one pass of
    [handleScroll] at the rounded percentage [p] reports, in strictly
    ascending order, exactly the configured thresholds [t] with [p >= t]
    that are not in [reached], and adds them to [reached]; when no
    threshold is configured twice, that is the list of the configured
    thresholds filtered by these two conditions. *)
Theorem scroll_thresholds_once_ascending (ts : list Z) (name : jsstring) :
  StronglySorted Z.le ts ->
  (forall acts,
     StronglySorted Z.lt (fired (fst (scroll_run acts (setupScrollTracking ts name)))))
  /\ (forall pg tr, thresholds tr = ts ->
        let p := Math_round (getScrollPercentage pg) in
        let calls := fst (handleScroll pg tr) in
        StronglySorted Z.lt (fired calls)
        /\ (forall t, In t (fired calls) <->
                      In t ts /\ number_ge p t = true /\ t ∉ reached tr)
        /\ (forall t, t ∈ reached (snd (handleScroll pg tr)) <->
                      t ∈ reached tr \/ In t (fired calls))
        /\ (List.NoDup ts ->
            fired calls =
            List.filter (fun t => number_ge p t && negb (bool_decide (t ∈ reached tr))) ts)).
Proof.
  intros Hs. split.
  - intros acts.
    destruct (scroll_run_tracks ts acts _ [] Hs (setupScrollTracking_tracks ts name))
      as (_ & _ & H & _).
    exact H.
  - intros pg tr Ht p calls. subst p calls.
    destruct (handleScroll_spec pg tr) as (Ef & Er & _).
    rewrite Ef, Er, Ht. split; [apply forEach_threshold_sorted, Hs|].
    split; [intros t; apply forEach_threshold_fired|].
    split; [intros t; apply forEach_threshold_reached|].
    apply forEach_threshold_filter.
Qed.

Lemma scroll_thresholds_once_ascending_witness :
  StronglySorted Z.le [25; 50; 75]
  /\ StronglySorted Z.lt
       (fired (fst (scroll_run [Scrolled (page_at 300); Scrolled (page_at 800);
                                Scrolled (page_at 100); Scrolled (page_at 1000)]
                      (setupScrollTracking [25; 50; 75] (str "scroll_depth")))))
  /\ fired (fst (handleScroll (page_at 800)
                   (setupScrollTracking [25; 50; 75] (str "scroll_depth"))))
     = [25; 50; 75].
Proof.
  assert (Hs : StronglySorted Z.le [25; 50; 75]).
  { repeat constructor; lia. }
  destruct (scroll_thresholds_once_ascending [25; 50; 75] (str "scroll_depth") Hs)
    as (Hrun & Hpass).
  split; [exact Hs|]. split; [apply Hrun|].
  destruct (Hpass (page_at 800) (setupScrollTracking [25; 50; 75] (str "scroll_depth"))
              eq_refl) as (_ & _ & _ & Hfilter).
  rewrite Hfilter; [reflexivity|].
  repeat constructor; simpl; intros H;
    repeat (destruct H as [H|H]; [discriminate H|]); exact H.
Defined.

(** C8 on the code: with the thresholds of the README, [20, 50, 80], and
    the page at 22 percent when the timeout comes due, the deferred check
    attaches the listener, and the threshold 20, already passed, is
    reported at once; with the thresholds [50, 75] and the page at 30
    percent, below the lowest of them, it does not attach.  The check
    compares with 25, whatever the thresholds are. *)
Theorem deferred_check_compares_with_25 :
  (let out := scroll_step (TimeoutFires (page_at 220))
                (setupScrollTracking [20; 50; 80] (str "scroll_depth")) in
   scrollEventAttached (snd out) = true /\ fired (fst out) = [20])
  /\ (let out := scroll_step (TimeoutFires (page_at 300))
                   (setupScrollTracking [50; 75] (str "scroll_depth")) in
      scrollEventAttached (snd out) = false /\ fired (fst out) = [])
  /\ (forall ts name pg,
        scrollEventAttached
          (snd (scroll_step (TimeoutFires pg) (setupScrollTracking ts name)))
        = number_lt (getScrollPercentage pg) 25).
Proof.
  split; [split; reflexivity|]. split; [split; reflexivity|].
  intros ts name pg. simpl. unfold deferred_check.
  destruct (number_lt (getScrollPercentage pg) 25); [|reflexivity].
  unfold attachScrollHandler. simpl. unfold handleScroll.
  destruct (forEach_threshold _ _ _). reflexivity.
Qed.

End ScrollDepth.


(* ===================================================================== *)
(** ** Further properties of the gate and the dispatcher *)
(* ===================================================================== *)

Section GateInvariants.

Import JsString JsValue Helper.

Lemma step_returns a st : exists st', step a st = Some (Return tt, st').
Proof.
  destruct a as [u|now|event properties|]; simpl.
  - eexists. reflexivity.
  - eexists. reflexivity.
  - destruct (initialized st) eqn:Hi.
    + destruct (logEvent_initialized event properties st Hi) as (st' & E & _).
      rewrite E. eexists. reflexivity.
    + rewrite (logEvent_not_initialized _ _ _ Hi). eexists. reflexivity.
  - destruct (checkInterval st) as [p|]; [|eexists; reflexivity].
    destruct (live p); [|eexists; reflexivity].
    unfold interval_callback. destruct (checkUmamiAvailable st).
    + match goal with |- context [become_ready ?s] =>
        destruct (become_ready_spec s) as (st' & E & _) end.
      rewrite E. eexists. reflexivity.
    + destruct (_ <=? _)%Z; [|eexists; reflexivity].
      match goal with |- context [logDebug ?a ?s] =>
        destruct (logDebug_spec a s) as (st' & E & _) end.
      rewrite E. eexists. reflexivity.
Qed.

Lemma run_returns acts st : exists st', run acts st = Some ([], st').
Proof.
  revert st. induction acts as [|a acts IH]; intros st; simpl.
  - eexists. reflexivity.
  - destruct (step_returns a st) as (st1 & E). rewrite E.
    destruct (IH st1) as (st' & E'). rewrite E'. eexists. reflexivity.
Qed.

(** With [setupEventListeners] for [setup], the open definitions are the
    closed ones. *)
Lemma step_with_setupEventListeners a st :
  step_with setupEventListeners a st = step a st.
Proof. destruct a; reflexivity. Qed.

Lemma run_with_setupEventListeners acts st :
  run_with setupEventListeners acts st = run acts st.
Proof.
  revert st. induction acts as [|a acts IH]; intros st; simpl; [reflexivity|].
  rewrite step_with_setupEventListeners.
  destruct (step a st) as [[r st']|]; [rewrite IH|]; reflexivity.
Qed.

Lemma new_UmamiHelper_with_setupEventListeners cfg u now :
  new_UmamiHelper_with setupEventListeners cfg u now = new_UmamiHelper cfg u now.
Proof. reflexivity. Qed.

(** The transition to READY, up to the call of [setup]. *)
Lemma become_ready_with_spec setup st :
  exists st1, become_ready_with setup st = Some (setup st1)
    /\ initialized st1 = true
    /\ umami st1 = umami st /\ clock st1 = clock st /\ config st1 = config st
    /\ checkInterval st1 = checkInterval st /\ listeners st1 = listeners st
    /\ eventQueue st1 = []
    /\ received st1 =
       received st ++ flat_map (forwarded (umami st) (clock st)) (eventQueue st).
Proof.
  unfold become_ready_with.
  destruct (processEventQueue_initialized (set_initialized true st) eq_refl)
    as (st1 & E & F & Q & R).
  rewrite E. exists st1. split; [reflexivity|].
  unfold same_frame in F. simpl in *. intuition congruence.
Qed.

Lemma step_with_returns setup a st :
  exists r st', step_with setup a st = Some (r, st')
    /\ ((forall s, fst (setup s) = Return tt) -> r = Return tt).
Proof.
  destruct a as [u|now|event properties|]; simpl.
  - do 2 eexists. split; [reflexivity|]. reflexivity.
  - do 2 eexists. split; [reflexivity|]. reflexivity.
  - destruct (initialized st) eqn:Hi.
    + destruct (logEvent_initialized event properties st Hi) as (st' & E & _).
      rewrite E. do 2 eexists. split; [reflexivity|]. reflexivity.
    + rewrite (logEvent_not_initialized _ _ _ Hi).
      do 2 eexists. split; [reflexivity|]. reflexivity.
  - destruct (checkInterval st) as [p|];
      [|do 2 eexists; split; [reflexivity|]; reflexivity].
    destruct (live p); [|do 2 eexists; split; [reflexivity|]; reflexivity].
    unfold interval_callback_with. destruct (checkUmamiAvailable st).
    + match goal with |- context [become_ready_with setup ?s] =>
        destruct (become_ready_with_spec setup s) as (st1 & E & _) end.
      rewrite E. destruct (setup st1) as [r st'] eqn:Es.
      exists r, st'. split; [reflexivity|].
      intros H. specialize (H st1). rewrite Es in H. exact H.
    + destruct (_ <=? _)%Z; [|do 2 eexists; split; [reflexivity|]; reflexivity].
      match goal with |- context [logDebug ?a ?s] =>
        destruct (logDebug_spec a s) as (st' & E & _) end.
      rewrite E. do 2 eexists. split; [reflexivity|]. reflexivity.
Qed.

Lemma run_with_returns setup acts st :
  exists es st', run_with setup acts st = Some (es, st')
    /\ ((forall s, fst (setup s) = Return tt) -> es = []).
Proof.
  revert st. induction acts as [|a acts IH]; intros st; simpl.
  - do 2 eexists. split; reflexivity.
  - destruct (step_with_returns setup a st) as (r & st1 & E & Hr). rewrite E.
    destruct (IH st1) as (es & st' & E' & He). rewrite E'.
    do 2 eexists. split; [reflexivity|].
    intros H. rewrite (Hr H), (He H). reflexivity.
Qed.

(** X1: every run of tasks ends, from whatever state it starts and
    whatever [setupEventListeners] does, and an exception reaches the page
    only when [setupEventListeners] throws.  The loop of
    [processEventQueue] is only entered on an initialized instance, and
    there each round takes one event off the queue for good: the call
    returns, without an exception, and leaves the queue empty. *)
Theorem run_ends (setup : M unit) (acts : list Action) (st : State) :
  (exists es st', run_with setup acts st = Some (es, st'))
  /\ ((forall s, fst (setup s) = Return tt) ->
      exists st', run_with setup acts st = Some ([], st'))
  /\ (initialized st = true ->
      exists st', processEventQueue st = Some (Return tt, st')
        /\ eventQueue st' = []
        /\ initialized st' = true).
Proof.
  destruct (run_with_returns setup acts st) as (es & st' & E & He).
  split; [exists es, st'; exact E|]. split.
  - intros H. exists st'. rewrite <- (He H). exact E.
  - intros Hi.
    destruct (processEventQueue_initialized st Hi) as (st1 & E1 & F & Q & _).
    exists st1. split; [exact E1|]. split; [exact Q|].
    destruct F as (_ & _ & _ & Fi & _). congruence.
Qed.

(** X2: READY is terminal: no task takes an initialized instance back. *)
Theorem ready_is_terminal (acts : list Action) (st st' : State) (es : list exn) :
  initialized st = true ->
  run acts st = Some (es, st') ->
  initialized st' = true.
Proof. intros Hi Hr. exact (run_keeps_initialized acts st es st' Hr Hi). Qed.

Lemma ready_is_terminal_witness :
  initialized ready_state = true
  /\ (exists st', run lonely_run ready_state = Some ([], st') /\ initialized st' = true).
Proof.
  split; [reflexivity|].
  destruct (run_returns lonely_run ready_state) as (st' & E).
  exists st'. split; [exact E|].
  exact (ready_is_terminal lonely_run ready_state st' [] eq_refl E).
Defined.

(** What holds of every instance from its construction on, whatever
    [setupEventListeners] does. *)
Lemma step_with_gate_invariant setup a st r st' :
  keeps_gate setup ->
  step_with setup a st = Some (r, st') ->
  (initialized st = true -> eventQueue st = []) ->
  (initialized st = false -> received st = [] /\ listeners st = false) ->
  (initialized st' = true -> eventQueue st' = [])
  /\ (initialized st' = false -> received st' = [] /\ listeners st' = false).
Proof.
  intros Hk Hs Ht Hf.
  destruct a as [u|now|event properties|]; simpl in Hs.
  - inversion Hs; subst. auto.
  - inversion Hs; subst. auto.
  - destruct (initialized st) eqn:Hi.
    + destruct (logEvent_initialized event properties st Hi) as (st1 & E & F & Q & _).
      rewrite E in Hs. inversion Hs; subst.
      destruct F as (_ & _ & _ & Fi & _).
      split; [intros _; rewrite Q; auto | rewrite Fi, Hi; discriminate].
    + rewrite (logEvent_not_initialized _ _ _ Hi) in Hs. inversion Hs; subst.
      simpl. rewrite Hi. split; [discriminate | intros _; auto].
  - destruct (checkInterval st) as [p|]; [|inversion Hs; subst; auto].
    destruct (live p); [|inversion Hs; subst; auto].
    unfold interval_callback_with in Hs. destruct (checkUmamiAvailable st).
    + match type of Hs with become_ready_with setup ?s = _ =>
        destruct (become_ready_with_spec setup s)
          as (st1 & E & Hi1 & _ & _ & _ & _ & _ & Q1 & _) end.
      rewrite E in Hs. inversion Hs as [Hs'].
      destruct (Hk st1) as (_ & _ & _ & _ & Ki & Kq & _).
      rewrite Hs' in Ki, Kq. simpl in Ki, Kq.
      split; [intros _; congruence | intros H; congruence].
    + destruct (_ <=? _)%Z.
      * match type of Hs with Some (logDebug ?a ?s) = _ =>
          destruct (logDebug_spec a s) as (st1 & E & F & Q & R) end.
        rewrite E in Hs. inversion Hs; subst.
        destruct F as (_ & _ & _ & Fi & _ & Fl). simpl in *.
        rewrite Fi, Q, R, Fl. auto.
      * inversion Hs; subst. auto.
Qed.

Lemma run_with_gate_invariant setup acts st es st' :
  keeps_gate setup ->
  run_with setup acts st = Some (es, st') ->
  (initialized st = true -> eventQueue st = []) ->
  (initialized st = false -> received st = [] /\ listeners st = false) ->
  (initialized st' = true -> eventQueue st' = [])
  /\ (initialized st' = false -> received st' = [] /\ listeners st' = false).
Proof.
  intros Hk. revert st es.
  induction acts as [|a acts IH]; intros st es Hr Ht Hf; simpl in Hr.
  - inversion Hr; subst. auto.
  - destruct (step_with setup a st) as [[r st1]|] eqn:Hs; [|discriminate].
    destruct (run_with setup acts st1) as [[es1 st2]|] eqn:Hr1; [|discriminate].
    inversion Hr; subst.
    destruct (step_with_gate_invariant _ _ _ _ _ Hk Hs Ht Hf) as (Ht1 & Hf1).
    exact (IH _ _ Hr1 Ht1 Hf1).
Qed.

(** The instance that [new UmamiHelper] leaves, with or without
    collector, whatever [setupEventListeners] does. *)
Lemma new_UmamiHelper_with_spec setup cfg u now :
  keeps_gate setup ->
  exists r st0, new_UmamiHelper_with setup cfg u now = Some (r, st0)
    /\ config st0 = cfg
    /\ received st0 = []
    /\ eventQueue st0 = []
    /\ initialized st0 = checkUmamiAvailable st0
    /\ (initialized st0 = false -> listeners st0 = false)
    /\ umami st0 = u
    /\ checkInterval st0 =
       if checkUmamiAvailable st0 then None
       else Some {| maxAttempts := retryAttempts cfg; attempts := 0; live := true |}.
Proof.
  intros Hk. unfold new_UmamiHelper_with.
  match goal with |- context [logDebug ?a ?s] =>
    destruct (logDebug_spec a s) as (st1 & E & F & Q & R) end.
  rewrite E. unfold init_with.
  destruct F as (Fu & Fc & Fg & Fi & Fp & Fl). simpl in *.
  assert (Hav : checkUmamiAvailable st1 = match u with UmamiUndefined => false | _ => true end)
    by (unfold checkUmamiAvailable; rewrite Fu; reflexivity).
  destruct u as [|track].
  - rewrite Hav. do 2 eexists. split; [reflexivity|].
    unfold waitForUmami, checkUmamiAvailable. simpl. rewrite Fu, Fg.
    repeat split; congruence.
  - rewrite Hav.
    destruct (become_ready_with_spec setup st1)
      as (st2 & E2 & Hi2 & Hu2 & _ & Hg2 & Hc2 & _ & Q2 & R2).
    rewrite E2. destruct (setup st2) as [r st0] eqn:Es.
    destruct (Hk st2) as (Ku & _ & Kr & Kg & Ki & Kq & Kc).
    rewrite Es in Ku, Kr, Kg, Ki, Kq, Kc. simpl in Ku, Kr, Kg, Ki, Kq, Kc.
    exists r, st0. split; [reflexivity|].
    unfold checkUmamiAvailable. rewrite Ku, Hu2, Fu.
    rewrite Q in R2. simpl in R2. rewrite app_nil_r in R2.
    repeat split; try congruence.
Qed.

(** X3: from the construction on, whatever the page does and whatever
    [setupEventListeners] does, throwing included: an initialized instance
    has an empty queue, since [initialized] is set and the queue drained
    before the adapters are turned to; an instance that is not initialized
    has made no call of [setupEventListeners], and the collector has
    received nothing. *)
Theorem gate_invariant (setup : M unit) (cfg : Config) (u : umami_obj) (now : jsstring)
    (acts : list Action) (r : result unit) (st0 st : State) (es : list exn) :
  keeps_gate setup ->
  new_UmamiHelper_with setup cfg u now = Some (r, st0) ->
  run_with setup acts st0 = Some (es, st) ->
  (initialized st = true -> eventQueue st = [])
  /\ (initialized st = false -> received st = [] /\ listeners st = false).
Proof.
  intros Hk Hnew Hrun.
  destruct (new_UmamiHelper_with_spec setup cfg u now Hk)
    as (r' & st0' & E & _ & R0 & Q0 & Hi0 & Hl0 & _).
  rewrite Hnew in E. inversion E; subst r' st0'.
  apply (run_with_gate_invariant setup acts st0 es st Hk Hrun).
  - intros _. exact Q0.
  - intros Hi. split; [exact R0 | exact (Hl0 Hi)].
Qed.

(** The adapters, as [Setup] has them, leave the gate alone. *)
Lemma setup_sources_on_keeps_gate tracking anchors ss st :
  umami (snd (Setup.setup_sources_on tracking anchors ss st)) = umami st
  /\ clock (snd (Setup.setup_sources_on tracking anchors ss st)) = clock st
  /\ received (snd (Setup.setup_sources_on tracking anchors ss st)) = received st
  /\ config (snd (Setup.setup_sources_on tracking anchors ss st)) = config st
  /\ initialized (snd (Setup.setup_sources_on tracking anchors ss st)) = initialized st
  /\ eventQueue (snd (Setup.setup_sources_on tracking anchors ss st)) = eventQueue st
  /\ checkInterval (snd (Setup.setup_sources_on tracking anchors ss st)) = checkInterval st.
Proof.
  revert st. induction ss as [|s ss IH]; intros st; cbn [Setup.setup_sources_on].
  - simpl. tauto.
  - destruct (Setup.read tracking (Setup.source_key s)) as [source|e];
      [|simpl; tauto].
    destruct (Setup.read source (str "enabled")) as [enabled|e]; [|simpl; tauto].
    destruct (truthy enabled); [|apply IH].
    unfold bind.
    match goal with |- context [logDebug ?a ?s] =>
      destruct (logDebug_spec a s) as (st1 & E & F & Q & R) end.
    rewrite E. destruct F as (Fu & Fc & Fg & Fi & Fp & _).
    destruct (Setup.setup_adapter tracking anchors s) as [[]|e].
    + destruct (IH st1) as (Hu & Hc & Hr & Hg & Hi & Hq & Hp).
      repeat split; congruence.
    + simpl. repeat split; congruence.
Defined.

Lemma setupEventListeners_on_keeps_gate cfg anchors :
  keeps_gate (Setup.setupEventListeners_on cfg anchors).
Proof.
  intros st. unfold Setup.setupEventListeners_on.
  exact (setup_sources_on_keeps_gate _ anchors Setup.sources (set_listeners true st)).
Defined.

Lemma gate_invariant_witness :
  let setup :=
    Setup.setupEventListeners_on (Registry.constructed_config Setup.number_for_tracking) [] in
  keeps_gate setup
  /\ exists st0 st,
       new_UmamiHelper_with setup default_gate_config UmamiUndefined (str "")
         = Some (Return tt, st0)
       /\ run_with setup
            [CallLogEvent (VString (str "form_submit")) VUndefined;
             PageSetsUmami quiet_collector; IntervalFires] st0
          = Some ([TypeError "Cannot read properties of undefined"], st)
       /\ initialized st = true
       /\ received st <> []
       /\ (initialized st = true -> eventQueue st = [])
       /\ (initialized st = false -> received st = [] /\ listeners st = false).
Proof.
  intros setup.
  pose proof (setupEventListeners_on_keeps_gate
                (Registry.constructed_config Setup.number_for_tracking) []) as Hk.
  split; [exact Hk|].
  do 2 eexists. split; [reflexivity|]. split; [vm_compute; reflexivity|].
  split; [reflexivity|]. split; [discriminate|].
  eapply (gate_invariant setup default_gate_config UmamiUndefined (str "")
            [CallLogEvent (VString (str "form_submit")) VUndefined;
             PageSetsUmami quiet_collector; IntervalFires]);
    [exact Hk | reflexivity | vm_compute; reflexivity].
Defined.

(** A task on an instance that is not initialized and has no live
    interval leaves it so, whatever the task. *)
Lemma step_stranded a st :
  initialized st = false ->
  (forall p, checkInterval st = Some p -> live p = false) ->
  exists st', step a st = Some (Return tt, st')
    /\ initialized st' = false
    /\ checkInterval st' = checkInterval st
    /\ received st' = received st
    /\ eventQueue st' = eventQueue st ++ logged [a].
Proof.
  intros Hi Hp. destruct a as [u|now|event properties|]; simpl.
  - eexists. split; [reflexivity|]. simpl. rewrite app_nil_r. auto.
  - eexists. split; [reflexivity|]. simpl. rewrite app_nil_r. auto.
  - rewrite (logEvent_not_initialized _ _ _ Hi). eexists. split; [reflexivity|].
    simpl. auto.
  - rewrite app_nil_r. destruct (checkInterval st) as [p|] eqn:Hc.
    + rewrite (Hp p eq_refl). eexists. split; [reflexivity|]. auto.
    + eexists. split; [reflexivity|]. auto.
Qed.

(** X4: FAILED is terminal.  Once the interval has been cleared on an
    instance that is not initialized, nothing opens the gate any more, not
    even the collector turning up: the instance stays uninitialized,
    [track] is never called and every call of [logEvent] only lengthens
    the queue. *)
Theorem stranded_after_exhaustion (acts : list Action) (st : State) :
  initialized st = false ->
  (forall p, checkInterval st = Some p -> live p = false) ->
  exists st', run acts st = Some ([], st')
    /\ initialized st' = false
    /\ received st' = received st
    /\ eventQueue st' = eventQueue st ++ logged acts.
Proof.
  revert st. induction acts as [|a acts IH]; intros st Hi Hp; cbn [run].
  - eexists. split; [reflexivity|]. simpl. rewrite app_nil_r. auto.
  - destruct (step_stranded a st Hi Hp) as (st1 & E & Hi1 & Hc1 & R1 & Q1).
    rewrite E.
    destruct (IH st1 Hi1) as (st' & E' & Hi' & R' & Q').
    { intros p. rewrite Hc1. apply Hp. }
    rewrite E'. eexists. split; [reflexivity|]. split; [exact Hi'|].
    split; [congruence|].
    rewrite Q', Q1, (logged_cons a acts), app_assoc. reflexivity.
Qed.

Lemma stranded_after_exhaustion_witness :
  exists st0 st,
    new_UmamiHelper default_gate_config UmamiUndefined (str "") = Some (Return tt, st0)
    /\ run [IntervalFires; IntervalFires; IntervalFires] st0 = Some ([], st)
    /\ initialized st = false
    /\ (forall p, checkInterval st = Some p -> live p = false)
    /\ exists st',
         run (PageSetsUmami quiet_collector :: IntervalFires :: sample_run) st
           = Some ([], st')
         /\ initialized st' = false
         /\ received st' = received st
         /\ eventQueue st' =
            eventQueue st ++ logged (PageSetsUmami quiet_collector :: IntervalFires :: sample_run).
Proof.
  do 2 eexists. split; [reflexivity|]. split; [reflexivity|].
  split; [reflexivity|].
  assert (H : forall p,
             Some {| maxAttempts := 3; attempts := 3; live := false |} = Some p ->
             live p = false) by (intros p E; inversion E; reflexivity).
  split; [exact H|].
  apply stranded_after_exhaustion; [reflexivity | exact H].
Defined.

(** X5: the gate tests that [window.umami] is defined, not that it can
    track.  When the live interval finds a [window.umami] without a
    callable [track], the instance is initialized and the queue emptied
    all the same, and the collector has received none of the queued
    events. *)
Theorem collector_without_track_loses_queue (st : State) (p : Poller) :
  initialized st = false ->
  checkInterval st = Some p ->
  live p = true ->
  umami st = UmamiValue None ->
  exists st', step IntervalFires st = Some (Return tt, st')
    /\ initialized st' = true
    /\ eventQueue st' = []
    /\ received st' = received st.
Proof.
  intros Hi Hc Hl Hu. simpl. rewrite Hc, Hl.
  unfold interval_callback, checkUmamiAvailable. rewrite Hu.
  match goal with |- context [become_ready ?s] =>
    destruct (become_ready_spec s) as (st' & E & Hi' & _ & _ & _ & _ & Q' & R') end.
  rewrite E. exists st'. split; [reflexivity|]. split; [exact Hi'|].
  split; [exact Q'|]. rewrite R'. simpl. rewrite Hu.
  assert (H : forall q, flat_map (forwarded (UmamiValue None) (clock st)) q = []).
  { induction q as [|[e pr] q IH]; [reflexivity|]. simpl. rewrite IH.
    unfold forwarded. simpl. destruct e; reflexivity. }
  rewrite H. apply app_nil_r.
Qed.

Lemma collector_without_track_loses_queue_witness :
  exists st0 st,
    new_UmamiHelper default_gate_config UmamiUndefined (str "") = Some (Return tt, st0)
    /\ run [CallLogEvent (VString (str "form_submit")) VUndefined;
            PageSetsUmami (UmamiValue None)] st0 = Some ([], st)
    /\ eventQueue st = [(VString (str "form_submit"), VObject [])]
    /\ initialized st = false
    /\ checkInterval st = Some {| maxAttempts := 3; attempts := 0; live := true |}
    /\ umami st = UmamiValue None
    /\ exists st', step IntervalFires st = Some (Return tt, st')
         /\ initialized st' = true
         /\ eventQueue st' = []
         /\ received st' = received st.
Proof.
  do 2 eexists. split; [reflexivity|]. split; [reflexivity|].
  split; [reflexivity|]. split; [reflexivity|]. split; [reflexivity|].
  split; [reflexivity|].
  eapply collector_without_track_loses_queue; reflexivity.
Defined.

(** X6: on an initialized instance, an event whose name is not a string
    is dropped before the collector is reached: [logEvent] returns,
    [track] is not called and the queue is not touched. *)
Theorem logEvent_drops_non_string_name (event properties : value) (st : State) :
  initialized st = true ->
  (forall name, event <> VString name) ->
  exists st', logEvent event properties st = (Return tt, st')
    /\ received st' = received st
    /\ eventQueue st' = eventQueue st
    /\ initialized st' = true.
Proof.
  intros Hi Hn.
  destruct (logEvent_initialized event properties st Hi) as (st' & E & F & Q & R).
  exists st'. split; [exact E|].
  destruct F as (_ & _ & _ & Fi & _).
  split; [|split; [exact Q|congruence]].
  rewrite R. unfold forwarded. simpl.
  destruct event; try apply app_nil_r. exfalso. eapply Hn. reflexivity.
Qed.

Lemma logEvent_drops_non_string_name_witness :
  initialized ready_state = true
  /\ (forall name, VObject [(str "name", VString (str "form_submit"))] <> VString name)
  /\ exists st',
       logEvent (VObject [(str "name", VString (str "form_submit"))]) VUndefined ready_state
         = (Return tt, st')
       /\ received st' = received ready_state
       /\ eventQueue st' = eventQueue ready_state
       /\ initialized st' = true.
Proof.
  assert (H : forall name,
             VObject [(str "name", VString (str "form_submit"))] <> VString name)
    by (intros name E; discriminate E).
  split; [reflexivity|]. split; [exact H|].
  exact (logEvent_drops_non_string_name _ VUndefined ready_state eq_refl H).
Defined.

(** An initialized instance without interval never gets one, and its
    queue never changes. *)
Lemma gate_invariant_run_interval acts st es st' :
  run acts st = Some (es, st') ->
  initialized st = true ->
  checkInterval st = None ->
  checkInterval st' = None /\ eventQueue st' = eventQueue st.
Proof.
  revert st es. induction acts as [|a acts IH]; intros st es Hr Hi Hc; simpl in Hr.
  - inversion Hr; subst. auto.
  - destruct (step a st) as [[r st1]|] eqn:Hs; [|discriminate].
    destruct (run acts st1) as [[es1 st2]|] eqn:Hr1; [|discriminate].
    inversion Hr; subst.
    assert (H1 : initialized st1 = true /\ checkInterval st1 = None
                 /\ eventQueue st1 = eventQueue st).
    { destruct a as [u|now|event properties|]; simpl in Hs.
      - inversion Hs; subst. auto.
      - inversion Hs; subst. auto.
      - destruct (logEvent_initialized event properties st Hi) as (s1 & E & F & Q & _).
        rewrite E in Hs. inversion Hs; subst.
        destruct F as (_ & _ & _ & Fi & Fc & _). repeat split; congruence.
      - rewrite Hc in Hs. inversion Hs; subst. auto. }
    destruct H1 as (Hi1 & Hc1 & Q1).
    destruct (IH _ _ Hr1 Hi1 Hc1) as (Hc' & Q'). split; congruence.
Qed.

(** Without a live interval, a task never reaches [setupEventListeners]. *)
Lemma step_with_no_interval setup a st :
  checkInterval st = None -> step_with setup a st = step a st.
Proof. intros Hc. destruct a; simpl; try reflexivity. rewrite Hc. reflexivity. Qed.

Lemma run_with_no_interval setup acts st :
  initialized st = true ->
  checkInterval st = None ->
  run_with setup acts st = run acts st.
Proof.
  revert st. induction acts as [|a acts IH]; intros st Hi Hc; simpl; [reflexivity|].
  rewrite (step_with_no_interval setup a st Hc).
  destruct (step a st) as [[r st1]|] eqn:Hs; [|reflexivity].
  destruct (run_returns [a] st) as (st1' & E1).
  pose proof E1 as E1'. simpl in E1'. rewrite Hs in E1'. inversion E1'; subst st1'.
  destruct (gate_invariant_run_interval [a] st [] st1 E1 Hi Hc) as (Hc1 & _).
  pose proof (run_keeps_initialized [a] st [] st1 E1 Hi) as Hi1.
  rewrite (IH st1 Hi1 Hc1). reflexivity.
Qed.

(** X7: on a page where [window.umami] is defined when the instance is
    constructed, the constructor sets [initialized] at once, before it
    turns to the adapters, and sets no interval.  Whatever
    [setupEventListeners] does, and however the constructor ends, the
    instance it leaves is initialized, has an empty queue and no interval,
    and stays so: no later task queues an event, and none throws. *)
Theorem construction_with_collector (setup : M unit) (cfg : Config) (now : jsstring)
    (track : option (jsstring -> value -> option exn)) :
  keeps_gate setup ->
  exists r st0, new_UmamiHelper_with setup cfg (UmamiValue track) now = Some (r, st0)
    /\ initialized st0 = true
    /\ checkInterval st0 = None
    /\ eventQueue st0 = []
    /\ received st0 = []
    /\ (forall acts, exists st,
          run_with setup acts st0 = Some ([], st)
          /\ initialized st = true /\ checkInterval st = None /\ eventQueue st = []).
Proof.
  intros Hk.
  destruct (new_UmamiHelper_with_spec setup cfg (UmamiValue track) now Hk)
    as (r & st0 & E & _ & R0 & Q0 & Hi0 & _ & Hu0 & Hc0).
  assert (Hav : checkUmamiAvailable st0 = true)
    by (unfold checkUmamiAvailable; rewrite Hu0; reflexivity).
  rewrite Hav in *. exists r, st0. split; [exact E|].
  split; [exact Hi0|]. split; [exact Hc0|].
  split; [exact Q0|]. split; [exact R0|].
  intros acts. destruct (run_returns acts st0) as (st & Hr).
  exists st. rewrite (run_with_no_interval setup acts st0 Hi0 Hc0).
  split; [exact Hr|].
  split; [exact (run_keeps_initialized acts st0 [] st Hr Hi0)|].
  destruct (gate_invariant_run_interval acts st0 [] st Hr Hi0 Hc0) as (Hc & Hq).
  rewrite Q0 in Hq. auto.
Qed.

Lemma construction_with_collector_witness :
  let setup :=
    Setup.setupEventListeners_on (Registry.constructed_config Setup.undefined_typeform) [] in
  keeps_gate setup
  /\ exists st0,
       new_UmamiHelper_with setup default_gate_config quiet_collector (str "")
         = Some (Throw (TypeError "Cannot read properties of undefined"), st0)
       /\ initialized st0 = true
       /\ checkInterval st0 = None
       /\ eventQueue st0 = []
       /\ received st0 = []
       /\ (forall acts, exists st,
             run_with setup acts st0 = Some ([], st)
             /\ initialized st = true /\ checkInterval st = None /\ eventQueue st = []).
Proof.
  intros setup.
  pose proof (setupEventListeners_on_keeps_gate
                (Registry.constructed_config Setup.undefined_typeform) []) as Hk.
  split; [exact Hk|].
  destruct (construction_with_collector setup default_gate_config (str "")
              (Some (fun _ _ => None)) Hk) as (r & st0 & E & H).
  assert (Er : r = Throw (TypeError "Cannot read properties of undefined"))
    by (pose proof E as E'; vm_compute in E'; inversion E'; reflexivity).
  subst r. exists st0. split; [exact E | exact H].
Defined.

Lemma logDebug_off args st :
  debug (config st) = false -> logDebug args st = (Return tt, st).
Proof. intros H. unfold logDebug. rewrite H. reflexivity. Qed.

Lemma logEvent_quiet event properties st :
  debug (config st) = false ->
  console (snd (logEvent event properties st)) = console st
  /\ config (snd (logEvent event properties st)) = config st.
Proof.
  intros Hd. unfold logEvent. destruct (initialized st); simpl; [|auto].
  unfold try_catch, bind.
  destruct event; simpl; try (rewrite (logDebug_off _ st Hd); auto).
  unfold umami_track. destruct (umami st) as [|[track|]]; simpl;
    try (rewrite (logDebug_off _ st Hd); auto).
  destruct (track _ _); rewrite logDebug_off by exact Hd; simpl; auto.
Qed.

Lemma processEventQueue_loop_quiet fuel st r st' :
  debug (config st) = false ->
  processEventQueue_loop fuel st = Some (r, st') ->
  console st' = console st /\ config st' = config st.
Proof.
  revert st. induction fuel as [|fuel IH]; intros st Hd; simpl.
  - destruct (eventQueue st) as [|[e p] q]; [|discriminate].
    intros H. inversion H; subst. auto.
  - destruct (eventQueue st) as [|[e p] q].
    + intros H. inversion H; subst. auto.
    + pose proof (logEvent_quiet e p (set_eventQueue q st) Hd) as (Hc & Hg).
      destruct (logEvent e p (set_eventQueue q st)) as [[[]|ex] st1]; simpl in *.
      * intros H. apply IH in H; [|congruence]. destruct H. split; congruence.
      * intros H. inversion H; subst. auto.
Qed.

Lemma step_quiet a st r st' :
  debug (config st) = false ->
  step a st = Some (r, st') ->
  console st' = console st /\ config st' = config st.
Proof.
  intros Hd Hs. destruct a as [u|now|event properties|]; simpl in Hs.
  - inversion Hs; subst. auto.
  - inversion Hs; subst. auto.
  - pose proof (logEvent_quiet event properties st Hd) as H.
    destruct (logEvent event properties st) as [r0 s0].
    inversion Hs; subst. exact H.
  - destruct (checkInterval st) as [p|]; [|inversion Hs; subst; auto].
    destruct (live p); [|inversion Hs; subst; auto].
    unfold interval_callback in Hs. destruct (checkUmamiAvailable st).
    + unfold become_ready, processEventQueue in Hs.
      match type of Hs with
      | match processEventQueue_loop ?f ?s with _ => _ end = _ =>
          destruct (processEventQueue_loop f s) as [[r1 s1]|] eqn:El; [|discriminate];
          apply (processEventQueue_loop_quiet f s r1 s1 Hd) in El
      end.
      destruct r1; inversion Hs; subst; simpl in *; exact El.
    + destruct (_ <=? _)%Z.
      * rewrite logDebug_off in Hs by exact Hd. inversion Hs; subst. auto.
      * inversion Hs; subst. auto.
Qed.

(** X8: with [debug] off the helper writes nothing to the console,
    whatever happens: no task adds a line, and none changes the
    configuration. *)
Theorem debug_off_console_silent (acts : list Action) (st st' : State) (es : list exn) :
  debug (config st) = false ->
  run acts st = Some (es, st') ->
  console st' = console st /\ config st' = config st.
Proof.
  revert st es. induction acts as [|a acts IH]; intros st es Hd Hr; simpl in Hr.
  - inversion Hr; subst. auto.
  - destruct (step a st) as [[r st1]|] eqn:Hs; [|discriminate].
    destruct (run acts st1) as [[es1 st2]|] eqn:Hr1; [|discriminate].
    inversion Hr; subst.
    destruct (step_quiet _ _ _ _ Hd Hs) as (Hc & Hg).
    destruct (IH st1 es1) as (Hc' & Hg'); [congruence|exact Hr1|].
    split; congruence.
Qed.

Lemma debug_off_console_silent_witness :
  debug (config ready_state) = false
  /\ exists st',
       run sample_run ready_state = Some ([], st')
       /\ console st' = console ready_state /\ config st' = config ready_state.
Proof.
  split; [reflexivity|].
  destruct (run_returns sample_run ready_state) as (st' & E).
  exists st'. split; [exact E|].
  exact (debug_off_console_silent sample_run ready_state st' [] eq_refl E).
Defined.

End GateInvariants.

(* ===================================================================== *)
(** ** Further properties of the configuration resolver *)
(* ===================================================================== *)

Section MergeDeep.

Import JsString JsValue.

(** Induction on values, through the lists they are nested in. *)
Lemma value_ind_nested (P : value -> Prop) :
  P VUndefined -> P VNull -> (forall b, P (VBool b)) -> (forall n, P (VNumber n)) ->
  (forall s, P (VString s)) ->
  (forall items, Forall P items -> P (VArray items)) ->
  (forall ps, Forall (fun kv => P (snd kv)) ps -> P (VObject ps)) ->
  forall v, P v.
Proof.
  intros Hu Hn Hb Hz Hs Ha Ho. fix IH 1. intros [| |b|n|s|items|ps].
  - exact Hu.
  - exact Hn.
  - apply Hb.
  - apply Hz.
  - apply Hs.
  - apply Ha. induction items as [|x items IHi]; constructor; [apply IH | exact IHi].
  - apply Ho. induction ps as [|[k x] ps IHp]; constructor; [apply IH | exact IHp].
Qed.

Lemma unique_keys_object ps :
  unique_keys (VObject ps) <->
  List.NoDup (List.map fst ps) /\ Forall (fun kv => unique_keys (snd kv)) ps.
Proof.
  simpl. split; intros [Hn H]; (split; [exact Hn|]); clear Hn.
  - induction ps as [|[k x] ps IH]; constructor; [apply H | apply IH, H].
  - induction H as [|[k x] ps Hx _ IH]; [exact I | split; [exact Hx | exact IH]].
Qed.

Lemma lookup_prop_In key ps x : lookup_prop key ps = Some x -> In (key, x) ps.
Proof.
  induction ps as [|[k v] ps IH]; simpl; [discriminate|].
  destruct (jsstring_eq_dec k key) as [->|NE].
  - intros E. inversion E. left. reflexivity.
  - intros E. right. apply IH, E.
Qed.

Lemma lookup_prop_None key ps :
  lookup_prop key ps = None -> ~ In key (List.map fst ps).
Proof.
  induction ps as [|[k v] ps IH]; simpl; [tauto|].
  destruct (jsstring_eq_dec k key) as [->|NE]; [discriminate|].
  intros E [H|H]; [congruence | exact (IH E H)].
Qed.

Lemma assign_same ps key x : lookup_prop key ps = Some x -> assign ps key x = ps.
Proof.
  induction ps as [|[k v] ps IH]; simpl; [discriminate|].
  destruct (jsstring_eq_dec k key) as [->|NE].
  - intros E. inversion E. reflexivity.
  - intros E. rewrite (IH E). reflexivity.
Qed.

Lemma mergeConfig_truthy d u : default_or_empty (mergeConfig d u) = mergeConfig d u.
Proof. destruct u; reflexivity. Qed.

(** A loop that assigns to every key the value it has already leaves the
    object as it is. *)
Lemma merge_props_fixed d ps merged :
  (forall key v, In (key, v) ps ->
     lookup_prop key merged =
     Some (if merges_recursively v
           then mergeConfig (default_or_empty (get d key)) v else v)) ->
  merge_props d ps merged = merged.
Proof.
  induction ps as [|[k v] ps IH]; intros H; simpl; [reflexivity|].
  rewrite assign_same by (apply H; left; reflexivity).
  apply IH. intros key w Hin. apply H. right. exact Hin.
Qed.

Lemma mergeConfig_idempotent_value u :
  match u with
  | VArray _ | VString _ => True
  | _ => forall d, unique_keys u -> mergeConfig (mergeConfig d u) u = mergeConfig d u
  end.
Proof.
  induction u as [| |b|n|s|items _|ps IH] using value_ind_nested;
    try exact I; try (intros d _; reflexivity).
  intros d Hu. apply unique_keys_object in Hu as [Hnd Hall].
  rewrite (mergeConfig_object d ps).
  rewrite (mergeConfig_object (VObject _) ps). simpl own_props. f_equal.
  apply merge_props_fixed. intros key v Hin.
  rewrite (merge_props_present d ps (own_props d) key v Hnd Hin).
  f_equal. destruct (merges_recursively v) eqn:Hv; [|reflexivity].
  rewrite get_object, (merge_props_present d ps (own_props d) key v Hnd Hin), Hv.
  rewrite mergeConfig_truthy.
  rewrite List.Forall_forall in IH, Hall.
  specialize (IH _ Hin). specialize (Hall _ Hin). simpl in IH, Hall.
  destruct v; try discriminate Hv; symmetry; apply IH; exact Hall.
Qed.

(** X9: merging the same overrides a second time changes nothing: the
    merge is idempotent in the overrides. *)
Theorem mergeConfig_idempotent (defaults : value) (overrides : props) :
  unique_keys (VObject overrides) ->
  mergeConfig (mergeConfig defaults (VObject overrides)) (VObject overrides)
  = mergeConfig defaults (VObject overrides).
Proof.
  intros Hu. exact (mergeConfig_idempotent_value (VObject overrides) defaults Hu).
Qed.

Lemma example_options_unique_keys : unique_keys (VObject example_options).
Proof.
  simpl. repeat split;
    repeat constructor; simpl; intros H;
    repeat (destruct H as [H|H]; [discriminate H|]); exact H.
Defined.

Lemma mergeConfig_idempotent_witness :
  unique_keys (VObject example_options)
  /\ mergeConfig (mergeConfig config (VObject example_options)) (VObject example_options)
     = mergeConfig config (VObject example_options).
Proof.
  split; [exact example_options_unique_keys|].
  exact (mergeConfig_idempotent config example_options example_options_unique_keys).
Defined.

(** X10: an override wins at any depth: a value that is not merged
    recursively (a boolean, a number, a string, an array, undefined) and
    that the overrides hold at the end of a path of property names is what
    the merged configuration holds at that path. *)
Theorem mergeConfig_override_wins (path : list jsstring) (defaults overrides x : value) :
  unique_keys overrides ->
  path <> [] ->
  lookup_path overrides path = Some x ->
  merges_recursively x = false ->
  lookup_path (mergeConfig defaults overrides) path = Some x.
Proof.
  revert defaults overrides. induction path as [|key rest IH];
    intros d u Hu Hne Hp Hx; [congruence|].
  simpl in Hp. destruct u as [| | | | | |ps]; try discriminate.
  destruct (lookup_prop key ps) as [v|] eqn:Hk; [|discriminate].
  apply unique_keys_object in Hu as [Hnd Hall].
  pose proof (lookup_prop_In _ _ _ Hk) as Hin.
  rewrite mergeConfig_object. simpl.
  rewrite (merge_props_present d ps (own_props d) key v Hnd Hin).
  destruct rest as [|key' rest].
  - simpl in Hp. inversion Hp; subst. rewrite Hx. reflexivity.
  - assert (Hv : merges_recursively v = true)
      by (destruct v; try discriminate Hp; reflexivity).
    rewrite Hv. apply IH; [|discriminate|exact Hp|exact Hx].
    rewrite List.Forall_forall in Hall. exact (Hall _ Hin).
Qed.

Lemma mergeConfig_override_wins_witness :
  unique_keys (VObject example_options)
  /\ [str "tracking"; str "scroll"; str "thresholds"] <> []
  /\ lookup_path (VObject example_options) [str "tracking"; str "scroll"; str "thresholds"]
     = Some (VArray [VNumber 20; VNumber 50; VNumber 80])
  /\ merges_recursively (VArray [VNumber 20; VNumber 50; VNumber 80]) = false
  /\ lookup_path (mergeConfig config (VObject example_options))
       [str "tracking"; str "scroll"; str "thresholds"]
     = Some (VArray [VNumber 20; VNumber 50; VNumber 80]).
Proof.
  assert (Hne : [str "tracking"; str "scroll"; str "thresholds"] <> []) by discriminate.
  split; [exact example_options_unique_keys|]. split; [exact Hne|].
  split; [reflexivity|]. split; [reflexivity|].
  exact (mergeConfig_override_wins _ config (VObject example_options) _
           example_options_unique_keys Hne eq_refl eq_refl).
Defined.

(** X11: a default survives at any depth: what the defaults hold at a
    path about which the overrides say nothing is what the merged
    configuration holds at that path. *)
Theorem mergeConfig_default_survives (path : list jsstring) (defaults overrides x : value) :
  unique_keys overrides ->
  untouched overrides path ->
  lookup_path defaults path = Some x ->
  lookup_path (mergeConfig defaults overrides) path = Some x.
Proof.
  revert defaults overrides. induction path as [|key rest IH];
    intros d u Hu Ht Hp; [destruct Ht|].
  simpl in Ht, Hp. destruct u as [| | | | | |ps]; try destruct Ht.
  destruct d as [| | | | | |dps]; try discriminate.
  destruct (lookup_prop key dps) as [dv|] eqn:Hd; [|discriminate].
  apply unique_keys_object in Hu as [Hnd Hall].
  rewrite mergeConfig_object. simpl.
  destruct (lookup_prop key ps) as [v|] eqn:Hk.
  - destruct v as [| | | | | |qs]; try destruct Ht.
    pose proof (lookup_prop_In _ _ _ Hk) as Hin.
    rewrite (merge_props_present (VObject dps) ps dps key _ Hnd Hin).
    change (merges_recursively (VObject qs)) with true. cbv iota.
    rewrite get_object, Hd.
    assert (Hdv : default_or_empty dv = dv).
    { destruct rest; [destruct Ht|]. destruct dv; try discriminate Hp. reflexivity. }
    rewrite Hdv. apply IH; [|exact Ht|exact Hp].
    rewrite List.Forall_forall in Hall. exact (Hall _ Hin).
  - rewrite merge_props_absent by (apply lookup_prop_None, Hk).
    rewrite Hd. exact Hp.
Qed.

Lemma mergeConfig_default_survives_witness :
  unique_keys (VObject example_options)
  /\ untouched (VObject example_options) [str "tracking"; str "typeform"; str "eventName"]
  /\ lookup_path config [str "tracking"; str "typeform"; str "eventName"]
     = Some (VString (str "typeform_submit"))
  /\ lookup_path (mergeConfig config (VObject example_options))
       [str "tracking"; str "typeform"; str "eventName"]
     = Some (VString (str "typeform_submit")).
Proof.
  assert (Ht : untouched (VObject example_options)
                 [str "tracking"; str "typeform"; str "eventName"]) by exact I.
  split; [exact example_options_unique_keys|]. split; [exact Ht|].
  split; [reflexivity|].
  exact (mergeConfig_default_survives _ config (VObject example_options) _
           example_options_unique_keys Ht eq_refl).
Defined.

Lemma fold_assign_lookup (ps merged : props) key :
  List.NoDup (List.map fst ps) ->
  lookup_prop key
    (fold_left (fun merged kv => assign merged (fst kv) (snd kv)) ps merged)
  = match lookup_prop key ps with
    | Some v => Some v
    | None => lookup_prop key merged
    end.
Proof.
  revert merged. induction ps as [|[k v] ps IH]; intros merged Hnd; simpl; [reflexivity|].
  apply NoDup_cons_iff in Hnd as [Hk Hnd]. simpl in *. rewrite (IH _ Hnd).
  destruct (jsstring_eq_dec k key) as [->|NE].
  - destruct (lookup_prop key ps) as [w|] eqn:E.
    + exfalso. apply Hk. apply lookup_prop_In in E.
      exact (in_map fst _ _ E).
    + apply lookup_assign_eq.
  - destruct (lookup_prop key ps); [reflexivity|]. apply lookup_assign_ne, NE.
Qed.

(** X12: the merge of the earlier variant, [{ ...config, ...options }],
    is one level deep: an option replaces the default under its name,
    whatever the two values are, and the other defaults are kept. *)
Theorem spread_over_lookup (defaults options : props) (key : jsstring) :
  List.NoDup (List.map fst options) ->
  lookup_prop key (own_props (spread_over (VObject defaults) (VObject options)))
  = match lookup_prop key options with
    | Some v => Some v
    | None => lookup_prop key defaults
    end.
Proof. intros Hnd. unfold spread_over. simpl. apply fold_assign_lookup, Hnd. Qed.

Lemma spread_over_lookup_witness :
  List.NoDup (List.map fst example_options)
  /\ lookup_prop (str "tracking")
       (own_props (spread_over (VObject (own_props config)) (VObject example_options)))
     = match lookup_prop (str "tracking") example_options with
       | Some v => Some v
       | None => lookup_prop (str "tracking") (own_props config)
       end.
Proof.
  split; [exact example_options_NoDup|].
  exact (spread_over_lookup (own_props config) example_options (str "tracking")
           example_options_NoDup).
Defined.

(** X13: on overrides that hold no object and no [null], the deep merge
    and the merge of the earlier variant give the same object. *)
Theorem mergeConfig_flat_is_spread (defaults : value) (overrides : props) :
  Forall (fun kv => merges_recursively (snd kv) = false) overrides ->
  mergeConfig defaults (VObject overrides) = spread_over defaults (VObject overrides).
Proof.
  intros H. rewrite mergeConfig_object. unfold spread_over. simpl. f_equal.
  generalize (own_props defaults) as merged.
  induction H as [|[k v] ps Hv _ IH]; intros merged; simpl; [reflexivity|].
  simpl in Hv. rewrite Hv. apply IH.
Qed.

Lemma mergeConfig_flat_is_spread_witness :
  Forall (fun kv => merges_recursively (snd kv) = false)
    [(str "debug", VBool true); (str "retryAttempts", VNumber 5)]
  /\ mergeConfig config (VObject [(str "debug", VBool true); (str "retryAttempts", VNumber 5)])
     = spread_over config (VObject [(str "debug", VBool true); (str "retryAttempts", VNumber 5)]).
Proof.
  assert (H : Forall (fun kv : jsstring * value => merges_recursively (snd kv) = false)
                [(str "debug", VBool true); (str "retryAttempts", VNumber 5)])
    by (repeat constructor).
  split; [exact H|].
  exact (mergeConfig_flat_is_spread config _ H).
Defined.

End MergeDeep.

(* ===================================================================== *)
(** ** Further properties of sanitization and of the scroll tracker *)
(* ===================================================================== *)

Section SanitizeMore.

Import JsString.
Local Open Scope N_scope.

(** X14: a name that is already clean (code units of [[a-z0-9_]] only, no
    two underscores in a row) is sanitized to itself; the default event
    names of the script are of this kind. *)
Theorem sanitizeEventName_keeps_clean_names (name : jsstring) :
  Forall (fun c => in_class c = true) name ->
  single_underscores false name = true ->
  sanitizeEventName name = name.
Proof. intros Hc Hs. exact (sanitizeEventName_fixpoint name Hc Hs). Qed.

Lemma sanitizeEventName_keeps_clean_names_witness :
  Forall (fun c => in_class c = true) (str "calendly_submit")
  /\ single_underscores false (str "calendly_submit") = true
  /\ sanitizeEventName (str "calendly_submit") = str "calendly_submit".
Proof.
  assert (Hc : Forall (fun c => in_class c = true) (str "calendly_submit"))
    by (repeat constructor).
  split; [exact Hc|]. split; [reflexivity|].
  exact (sanitizeEventName_keeps_clean_names (str "calendly_submit") Hc eq_refl).
Defined.

Lemma lower_unit_nonempty c : lower_unit c <> [].
Proof.
  unfold lower_unit.
  destruct ((65 <=? c) && (c <=? 90)); [discriminate|].
  destruct (c =? 304); [discriminate|].
  destruct (c =? 8490); discriminate.
Qed.

Lemma replace_underscore_runs_nonempty s :
  s <> [] -> replace_underscore_runs false s <> [].
Proof.
  destruct s as [|c s]; [congruence|]. intros _. simpl.
  destruct (c =? underscore); discriminate.
Qed.

(** X15: the sanitized name is empty for the empty name only: a name made
    of nothing but symbols still comes out as an underscore. *)
Theorem sanitizeEventName_empty_iff (name : jsstring) :
  sanitizeEventName name = [] <-> name = [].
Proof.
  split; [|intros ->; reflexivity].
  rewrite sanitizeEventName_unfold. intros H.
  destruct name as [|c name]; [reflexivity|]. exfalso.
  revert H. apply replace_underscore_runs_nonempty.
  unfold toLowerCase. simpl.
  destruct (lower_unit c) as [|x l] eqn:E; [destruct (lower_unit_nonempty c E)|].
  discriminate.
Qed.

End SanitizeMore.

Section ScrollMore.

Import JsString JsValue Scroll.
Local Open Scope Z_scope.

Lemma handleScroll_frame pg tr :
  scrollEventAttached (snd (handleScroll pg tr)) = scrollEventAttached tr
  /\ handleScroll_listens (snd (handleScroll pg tr)) = handleScroll_listens tr
  /\ attach_listens (snd (handleScroll pg tr)) = attach_listens tr
  /\ timeout_pending (snd (handleScroll pg tr)) = timeout_pending tr.
Proof.
  unfold handleScroll. destruct (forEach_threshold _ _ _). simpl. auto.
Qed.

(** What one pass reports and reaches. *)
Lemma handleScroll_reached pg tr t :
  (t ∈ reached (snd (handleScroll pg tr)) <->
   t ∈ reached tr \/ In t (fired (fst (handleScroll pg tr))))
  /\ (In t (fired (fst (handleScroll pg tr))) <->
      In t (thresholds tr)
      /\ number_ge (Math_round (getScrollPercentage pg)) t = true
      /\ t ∉ reached tr).
Proof.
  destruct (handleScroll_spec pg tr) as (Ef & Er & _). rewrite Ef, Er.
  split; [apply forEach_threshold_reached | apply forEach_threshold_fired].
Qed.

Lemma attachScrollHandler_in_step pg tr :
  handleScroll_listens tr = scrollEventAttached tr ->
  listeners_in_step (snd (attachScrollHandler pg tr))
  /\ scrollEventAttached (snd (attachScrollHandler pg tr)) = true
  /\ attach_listens (snd (attachScrollHandler pg tr)) = attach_listens tr.
Proof.
  intros H1. unfold attachScrollHandler, listeners_in_step.
  destruct (scrollEventAttached tr) eqn:Ha; simpl.
  - rewrite Ha. auto.
  - destruct (handleScroll_frame pg (set_attached tr)) as (Fa & Fl & Fo & _).
    rewrite Fa, Fl, Fo. simpl. auto.
Qed.

Lemma scroll_step_in_step a tr :
  listeners_in_step tr -> listeners_in_step (snd (scroll_step a tr)).
Proof.
  intros H. destruct a as [pg|pg]; simpl.
  - destruct (timeout_pending tr); [|exact H]. unfold deferred_check.
    destruct (number_lt _ _); [|exact H].
    apply attachScrollHandler_in_step. apply H.
  - destruct H as (H1 & H2). unfold listeners_in_step.
    destruct (attach_listens tr) eqn:Ho.
    + destruct (attachScrollHandler_in_step pg (set_attach_listens false tr) H1)
        as ((J1 & J2) & Ja & Jo).
      destruct (attachScrollHandler pg (set_attach_listens false tr)) as [c1 tr1].
      cbn in *. destruct (handleScroll_listens tr).
      * destruct (handleScroll_frame pg tr1) as (Fa & Fl & Fo & _).
        destruct (handleScroll pg tr1) as [c2 tr2]. cbn in *.
        intuition congruence.
      * cbn. intuition congruence.
    + specialize (H2 eq_refl). rewrite H1, H2.
      destruct (handleScroll_frame pg tr) as (Fa & Fl & Fo & _).
      destruct (handleScroll pg tr) as [c2 tr2]. cbn in *.
      intuition congruence.
Qed.

Lemma scroll_run_in_step acts tr :
  listeners_in_step tr -> listeners_in_step (snd (scroll_run acts tr)).
Proof.
  revert tr. induction acts as [|a acts IH]; intros tr H; simpl; [exact H|].
  pose proof (scroll_step_in_step a tr H) as H1.
  destruct (scroll_step a tr) as [c tr1]. specialize (IH tr1 H1).
  destruct (scroll_run acts tr1) as [c' tr2]. exact IH.
Qed.

Lemma scroll_run_app acts1 acts2 tr :
  scroll_run (acts1 ++ acts2) tr =
  (fst (scroll_run acts1 tr) ++ fst (scroll_run acts2 (snd (scroll_run acts1 tr))),
   snd (scroll_run acts2 (snd (scroll_run acts1 tr)))).
Proof.
  revert tr. induction acts1 as [|a acts1 IH]; intros tr; simpl.
  - destruct (scroll_run acts2 tr). reflexivity.
  - destruct (scroll_step a tr) as [c tr1]. rewrite IH.
    destruct (scroll_run acts1 tr1) as [c1 tr2]. simpl.
    rewrite app_assoc. reflexivity.
Qed.

Lemma scroll_step_thresholds a tr :
  thresholds (snd (scroll_step a tr)) = thresholds tr.
Proof.
  assert (Hh : forall pg t, thresholds (snd (handleScroll pg t)) = thresholds t)
    by (intros pg t; apply handleScroll_spec).
  assert (Ha : forall pg t, thresholds (snd (attachScrollHandler pg t)) = thresholds t).
  { intros pg t. unfold attachScrollHandler.
    destruct (scrollEventAttached t); simpl; [reflexivity|]. rewrite Hh. reflexivity. }
  destruct a as [pg|pg]; simpl.
  - destruct (timeout_pending tr); [|reflexivity]. unfold deferred_check.
    destruct (number_lt _ _); [|reflexivity]. rewrite Ha. reflexivity.
  - destruct (attach_listens tr).
    + specialize (Ha pg (set_attach_listens false tr)).
      destruct (attachScrollHandler pg (set_attach_listens false tr)) as [c1 tr1].
      simpl in Ha. destruct (handleScroll_listens tr); [|exact Ha].
      specialize (Hh pg tr1). destruct (handleScroll pg tr1). simpl in *. congruence.
    + destruct (handleScroll_listens tr); [|reflexivity].
      specialize (Hh pg tr). destruct (handleScroll pg tr). exact Hh.
Qed.

Lemma scroll_run_thresholds acts tr :
  thresholds (snd (scroll_run acts tr)) = thresholds tr.
Proof.
  revert tr. induction acts as [|a acts IH]; intros tr; simpl; [reflexivity|].
  pose proof (scroll_step_thresholds a tr) as H.
  destruct (scroll_step a tr) as [c tr1]. specialize (IH tr1).
  destruct (scroll_run acts tr1). simpl in *. congruence.
Qed.

(** A scroll event on a tracker whose listeners are in step runs one
    pass of [handleScroll] on the page. *)
Lemma scrolled_is_one_pass pg tr :
  listeners_in_step tr ->
  exists tr0,
    thresholds tr0 = thresholds tr /\ reached tr0 = reached tr
    /\ fired (fst (scroll_step (Scrolled pg) tr)) = fired (fst (handleScroll pg tr0))
    /\ reached (snd (scroll_step (Scrolled pg) tr)) = reached (snd (handleScroll pg tr0)).
Proof.
  intros (H1 & H2). simpl. destruct (attach_listens tr) eqn:Ho.
  - unfold attachScrollHandler. simpl. rewrite H1.
    destruct (scrollEventAttached tr) eqn:Ha; simpl.
    + exists (set_attach_listens false tr).
      destruct (handleScroll pg (set_attach_listens false tr)). simpl. auto.
    + exists (set_attached (set_attach_listens false tr)).
      destruct (handleScroll pg (set_attached (set_attach_listens false tr))).
      simpl. rewrite app_nil_r. auto.
  - rewrite H1, (H2 eq_refl). exists tr. destruct (handleScroll pg tr). simpl. auto.
Qed.

Lemma attachScrollHandler_reached pg tr t :
  (t ∈ reached (snd (attachScrollHandler pg tr)) <->
   t ∈ reached tr \/ In t (fired (fst (attachScrollHandler pg tr))))
  /\ (In t (fired (fst (attachScrollHandler pg tr))) ->
      In t (thresholds tr)
      /\ number_ge (Math_round (getScrollPercentage pg)) t = true).
Proof.
  unfold attachScrollHandler. destruct (scrollEventAttached tr); simpl.
  - split; [tauto | intros []].
  - destruct (handleScroll_reached pg (set_attached tr) t) as (Hr & Hf).
    split; [exact Hr|]. intros H. apply Hf in H. simpl in H. tauto.
Qed.

(** What a task reports is added to [reached], and it reports only
    configured thresholds that the page of the task has reached. *)
Lemma scroll_step_reached a tr t :
  (t ∈ reached (snd (scroll_step a tr)) <->
   t ∈ reached tr \/ In t (fired (fst (scroll_step a tr))))
  /\ (In t (fired (fst (scroll_step a tr))) ->
      In t (thresholds tr)
      /\ number_ge (Math_round (getScrollPercentage (page_of a))) t = true).
Proof.
  destruct a as [pg|pg]; simpl.
  - destruct (timeout_pending tr); [|split; [simpl; tauto | intros []]].
    unfold deferred_check. destruct (number_lt _ _); [|split; [simpl; tauto | intros []]].
    apply (attachScrollHandler_reached pg (set_timeout_pending false tr) t).
  - assert (H1 : exists c1 tr1,
               (if attach_listens tr
                then attachScrollHandler pg (set_attach_listens false tr)
                else ([], tr)) = (c1, tr1)
               /\ thresholds tr1 = thresholds tr
               /\ (t ∈ reached tr1 <-> t ∈ reached tr \/ In t (fired c1))
               /\ (In t (fired c1) ->
                   In t (thresholds tr)
                   /\ number_ge (Math_round (getScrollPercentage pg)) t = true)).
    { destruct (attach_listens tr).
      - destruct (attachScrollHandler_reached pg (set_attach_listens false tr) t) as (Hr & Hf).
        pose proof (scroll_step_thresholds (Scrolled pg)
                      {| thresholds := thresholds tr; eventName := eventName tr;
                         reached := reached tr;
                         scrollEventAttached := scrollEventAttached tr;
                         handleScroll_listens := false;
                         attach_listens := true;
                         timeout_pending := timeout_pending tr |}) as Ht.
        simpl in Ht.
        destruct (attachScrollHandler pg (set_attach_listens false tr)) as [c1 tr1] eqn:E.
        exists c1, tr1. split; [reflexivity|]. simpl in *.
        split; [|split; [exact Hr | exact Hf]].
        unfold attachScrollHandler in E. simpl in E.
        destruct (scrollEventAttached tr); simpl in E.
        + inversion E; subst. reflexivity.
        + pose proof (handleScroll_spec pg (set_attached (set_attach_listens false tr)))
            as (_ & _ & H). rewrite E in H. exact H.
      - exists [], tr. split; [reflexivity|]. split; [reflexivity|].
        split; [simpl; tauto | intros []]. }
    destruct H1 as (c1 & tr1 & E & Ht & Hr & Hf). rewrite E.
    destruct (handleScroll_listens tr).
    + destruct (handleScroll_reached pg tr1 t) as (Hr2 & Hf2).
      destruct (handleScroll pg tr1) as [c2 tr2]. simpl in *.
      rewrite fired_app, List.in_app_iff. rewrite Ht in Hf2. tauto.
    + simpl. rewrite app_nil_r. tauto.
Qed.

Lemma scroll_run_reached acts tr t :
  (t ∈ reached (snd (scroll_run acts tr)) <->
   t ∈ reached tr \/ In t (fired (fst (scroll_run acts tr))))
  /\ (In t (fired (fst (scroll_run acts tr))) ->
      In t (thresholds tr)
      /\ exists a, In a acts
           /\ number_ge (Math_round (getScrollPercentage (page_of a))) t = true).
Proof.
  revert tr. induction acts as [|a acts IH]; intros tr; simpl.
  - split; [tauto | intros []].
  - destruct (scroll_step_reached a tr t) as (Hr & Hf).
    pose proof (scroll_step_thresholds a tr) as Ht.
    destruct (scroll_step a tr) as [c tr1]. simpl in *.
    destruct (IH tr1) as (Hr' & Hf'). destruct (scroll_run acts tr1) as [c' tr2].
    simpl in *. rewrite fired_app, List.in_app_iff. split; [tauto|].
    intros [H|H].
    + destruct (Hf H) as (H1 & H2). split; [exact H1|]. exists a. auto.
    + destruct (Hf' H) as (H1 & a' & H2 & H3). split; [congruence|]. exists a'. auto.
Qed.

Lemma setupScrollTracking_in_step ts name :
  listeners_in_step (setupScrollTracking ts name).
Proof. split; [reflexivity | discriminate]. Qed.

Lemma scroll_run_single a tr :
  fst (scroll_run [a] tr) = fst (scroll_step a tr).
Proof.
  cbn [scroll_run]. destruct (scroll_step a tr) as [c tr1]. simpl. apply app_nil_r.
Qed.

(** X16: a scroll event leaves no threshold behind: after a scroll event
    on a page whose rounded percentage has reached a configured
    threshold, that threshold has been reported, by this event or by an
    earlier task. *)
Theorem scroll_event_reports_reached_thresholds
    (ts : list Z) (name : jsstring) (acts : list ScrollAction) (pg : Page) (t : Z) :
  In t ts ->
  number_ge (Math_round (getScrollPercentage pg)) t = true ->
  In t (fired (fst (scroll_run (acts ++ [Scrolled pg]) (setupScrollTracking ts name)))).
Proof.
  intros Hin Hge. rewrite scroll_run_app. cbn [fst].
  rewrite fired_app, List.in_app_iff, scroll_run_single.
  set (tr0 := setupScrollTracking ts name).
  pose proof (scroll_run_in_step acts tr0 (setupScrollTracking_in_step ts name)) as Hs.
  pose proof (scroll_run_thresholds acts tr0) as Ht.
  destruct (scroll_run_reached acts tr0 t) as (Hr & _).
  set (tr1 := snd (scroll_run acts tr0)) in *.
  destruct (decide (t ∈ reached tr1)) as [Hm|Hm].
  - left. apply Hr in Hm as [Hm|Hm]; [|exact Hm]. simpl in Hm. set_solver.
  - right. destruct (scrolled_is_one_pass pg tr1 Hs) as (tr' & Ht' & Hr' & Hf & _).
    rewrite Hf. apply handleScroll_reached.
    rewrite Ht', Hr', Ht. auto.
Qed.

Lemma scroll_event_reports_reached_thresholds_witness :
  In 50 [20; 50; 80]
  /\ number_ge (Math_round (getScrollPercentage (page_at 615))) 50 = true
  /\ In 50 (fired (fst (scroll_run ([TimeoutFires (page_at 300)] ++ [Scrolled (page_at 615)])
                          (setupScrollTracking [20; 50; 80] (str "scroll_depth"))))).
Proof.
  assert (H1 : In 50 [20; 50; 80]) by (right; left; reflexivity).
  split; [exact H1|]. split; [reflexivity|].
  exact (scroll_event_reports_reached_thresholds [20; 50; 80] (str "scroll_depth")
           [TimeoutFires (page_at 300)] (page_at 615) 50 H1 eq_refl).
Defined.

(** X17: nothing is reported that was not reached: a threshold reported
    in a page load is a configured threshold, and the rounded percentage
    of the page at one of the tasks was at least that threshold.  On a
    page that cannot scroll (percentage [NaN]) nothing is reported. *)
Theorem reported_threshold_was_reached
    (ts : list Z) (name : jsstring) (acts : list ScrollAction) (t : Z) :
  In t (fired (fst (scroll_run acts (setupScrollTracking ts name)))) ->
  In t ts
  /\ exists a, In a acts
       /\ number_ge (Math_round (getScrollPercentage (page_of a))) t = true.
Proof.
  intros H. exact (proj2 (scroll_run_reached acts (setupScrollTracking ts name) t) H).
Qed.

Lemma reported_threshold_was_reached_witness :
  In 25 (fired (fst (scroll_run [Scrolled (page_at 300)]
                       (setupScrollTracking [25; 50; 75] (str "scroll_depth")))))
  /\ In 25 [25; 50; 75]
  /\ exists a, In a [Scrolled (page_at 300)]
       /\ number_ge (Math_round (getScrollPercentage (page_of a))) 25 = true.
Proof.
  assert (H : In 25 (fired (fst (scroll_run [Scrolled (page_at 300)]
                       (setupScrollTracking [25; 50; 75] (str "scroll_depth"))))))
    by (left; reflexivity).
  split; [exact H|].
  exact (reported_threshold_was_reached [25; 50; 75] (str "scroll_depth")
           [Scrolled (page_at 300)] 25 H).
Defined.

Lemma attachScrollHandler_once pg tr :
  attach_listens (snd (attachScrollHandler pg tr)) = attach_listens tr.
Proof.
  unfold attachScrollHandler. destruct (scrollEventAttached tr); simpl; [reflexivity|].
  destruct (handleScroll_frame pg (set_attached tr)) as (_ & _ & Fo & _). exact Fo.
Qed.

Lemma scroll_step_once_gone a tr :
  (attach_listens tr = false \/ exists pg, a = Scrolled pg) ->
  attach_listens (snd (scroll_step a tr)) = false.
Proof.
  intros H. destruct a as [pg|pg]; simpl.
  - destruct H as [H|[pg' H]]; [|discriminate].
    destruct (timeout_pending tr); [|exact H]. unfold deferred_check.
    destruct (number_lt _ _); [|exact H]. rewrite attachScrollHandler_once. exact H.
  - assert (H1 : attach_listens
                   (snd (if attach_listens tr
                         then attachScrollHandler pg (set_attach_listens false tr)
                         else ([], tr))) = false).
    { destruct (attach_listens tr) eqn:Ho; [|exact Ho].
      rewrite attachScrollHandler_once. reflexivity. }
    destruct (if attach_listens tr
              then attachScrollHandler pg (set_attach_listens false tr)
              else ([], tr)) as [c1 tr1]. simpl in H1.
    destruct (handleScroll_listens tr); [|exact H1].
    destruct (handleScroll_frame pg tr1) as (_ & _ & Fo & _).
    destruct (handleScroll pg tr1). simpl in *. congruence.
Qed.

Lemma scroll_run_once_gone acts tr :
  attach_listens tr = false -> attach_listens (snd (scroll_run acts tr)) = false.
Proof.
  revert tr. induction acts as [|a acts IH]; intros tr H; simpl; [exact H|].
  pose proof (scroll_step_once_gone a tr (or_introl H)) as H1.
  destruct (scroll_step a tr) as [c tr1]. specialize (IH tr1 H1).
  destruct (scroll_run acts tr1). exact IH.
Qed.

(** X18: the deferred check and the first scroll race, and whichever
    comes second does nothing of its own: once the window has been
    scrolled, the timeout, when it comes due, reports nothing and leaves
    [reached] as it is, wherever the page stands. *)
Theorem deferred_check_after_scroll_is_idle
    (ts : list Z) (name : jsstring) (before after : list ScrollAction) (pg0 pg : Page) :
  let tr := snd (scroll_run (before ++ Scrolled pg0 :: after) (setupScrollTracking ts name)) in
  fst (scroll_step (TimeoutFires pg) tr) = []
  /\ reached (snd (scroll_step (TimeoutFires pg) tr)) = reached tr
  /\ scrollEventAttached tr = true.
Proof.
  intros tr.
  assert (Hs : listeners_in_step tr)
    by (apply scroll_run_in_step, setupScrollTracking_in_step).
  assert (Ho : attach_listens tr = false).
  { subst tr. rewrite scroll_run_app. cbn [snd].
    change (Scrolled pg0 :: after) with ([Scrolled pg0] ++ after).
    rewrite scroll_run_app. cbn [snd]. apply scroll_run_once_gone.
    cbn [scroll_run].
    pose proof (scroll_step_once_gone (Scrolled pg0)
                  (snd (scroll_run before (setupScrollTracking ts name)))
                  (or_intror (ex_intro _ pg0 eq_refl))) as H.
    destruct (scroll_step (Scrolled pg0) _) as [c tr1]. exact H. }
  destruct Hs as (_ & Ha). specialize (Ha Ho).
  simpl. destruct (timeout_pending tr); [|auto].
  unfold deferred_check. destruct (number_lt _ _); [|auto].
  unfold attachScrollHandler. simpl. rewrite Ha. auto.
Qed.

(** The percentage is a double: at 145 of 1000 pixels, 0.145 times 100 is
    the double just below 14.5, and [Math.round] takes it to 14. *)
Example getScrollPercentage_in_doubles :
  getScrollPercentage (page_at 145) = Finite (8162774324609023 # 562949953421312)
  /\ Math_round (getScrollPercentage (page_at 145)) = Finite (inject_Z 14)
  /\ number_ge (Math_round (getScrollPercentage (page_at 145))) 15 = false.
Proof. repeat split; vm_compute; reflexivity. Qed.

End ScrollMore.

(* ===================================================================== *)
(** ** Properties of the global instance and of the adapters *)
(* ===================================================================== *)

Section Singleton.

Import JsString JsValue Registry.

Lemma registry_step_initialized construct a r :
  initialized r = true -> registry_step construct a r = r.
Proof.
  intros H. destruct a as [options|]; simpl.
  - unfold init. rewrite H. reflexivity.
  - unfold grace_timeout. rewrite H. reflexivity.
Qed.

Lemma registry_run_initialized construct acts r :
  initialized r = true -> registry_run construct acts r = r.
Proof.
  revert r. induction acts as [|a acts IH]; intros r H; [reflexivity|].
  unfold registry_run in *. simpl. rewrite (registry_step_initialized construct a r H).
  apply IH, H.
Qed.

(** X19: the page constructs at most once, with whatever comes first, a
    call of [init] or the timeout.  The flag is set before the constructor
    runs: after any sequence of calls and timeouts the flag is set and
    [instance] is what that first construction left, the instance when the
    constructor returned and [null] when it threw; every further call of
    [init] returns just that, constructs nothing and changes nothing,
    whatever options it is given.  When every construction returns the
    instance it builds from its options, the registry holds the instance
    built from the options of the first action. *)
Theorem registry_constructs_once (construct : value -> Helper.result value)
    (a : RegistryAction) (rest : list RegistryAction) :
  let r := registry_run construct (a :: rest) initial in
  initialized r = true
  /\ instance r = outcome construct (options_of a)
  /\ (forall options, init construct options r = (Helper.Return (instance r), r))
  /\ (forall e, construct (options_of a) = Helper.Throw e ->
        instance r = None
        /\ forall options, init construct options r = (Helper.Return None, r))
  /\ instance (registry_run returning (a :: rest) initial)
     = Some (constructed_config (options_of a)).
Proof.
  intros r.
  assert (E : forall c, registry_run c (a :: rest) initial
                        = {| instance := outcome c (options_of a); initialized := true |}).
  { intros c. unfold registry_run. simpl.
    change (fold_left (fun r a => registry_step c a r) rest (registry_step c a initial))
      with (registry_run c rest (registry_step c a initial)).
    rewrite registry_run_initialized;
      destruct a; simpl; unfold init, grace_timeout, outcome; simpl;
      destruct (c _); reflexivity. }
  subst r. rewrite !E. simpl.
  split; [reflexivity|]. split; [reflexivity|]. split; [reflexivity|].
  split; [|reflexivity].
  intros e He. unfold outcome. rewrite He. split; reflexivity.
Qed.

End Singleton.

Section AdapterFacts.

Import JsString JsValue Adapters.
Local Open Scope N_scope.

Lemma getAttribute_setAttribute_eq a name v :
  getAttribute name (setAttribute a name v) = Some v.
Proof.
  induction a as [|[n w] a IH]; simpl.
  - destruct (jsstring_eq_dec name name); [reflexivity | congruence].
  - destruct (jsstring_eq_dec n name) as [E|NE]; simpl.
    + rewrite E. destruct (jsstring_eq_dec name name); [reflexivity | congruence].
    + destruct (jsstring_eq_dec n name); [congruence | exact IH].
Qed.

Lemma getAttribute_setAttribute_ne a name name' v :
  name <> name' -> getAttribute name' (setAttribute a name v) = getAttribute name' a.
Proof.
  intros NE. induction a as [|[n w] a IH]; simpl.
  - destruct (jsstring_eq_dec name name'); [congruence | reflexivity].
  - destruct (jsstring_eq_dec n name) as [E|NE']; simpl.
    + subst n. destruct (jsstring_eq_dec name name'); [congruence | reflexivity].
    + destruct (jsstring_eq_dec n name'); [reflexivity | exact IH].
Qed.

Lemma startsWith_app s prefix :
  startsWith s prefix = true -> s = prefix ++ skipn (length prefix) s.
Proof.
  revert s. induction prefix as [|p ps IH]; intros s H; [reflexivity|].
  destruct s as [|c cs]; [discriminate|]. simpl in H.
  apply andb_true_iff in H as [H1 H2]. apply N.eqb_eq in H1. subst c.
  simpl. f_equal. apply IH, H2.
Qed.

Lemma startsWith_prefix prefix s : startsWith (prefix ++ s) prefix = true.
Proof.
  induction prefix as [|p ps IH]; simpl; [destruct s; reflexivity|].
  rewrite N.eqb_refl. exact IH.
Qed.

Lemma remove_first_prefix s pattern :
  startsWith s pattern = true -> pattern ++ remove_first s pattern = s.
Proof.
  intros H.
  assert (E : remove_first s pattern = skipn (length pattern) s)
    by (destruct s; cbn [remove_first]; rewrite H; reflexivity).
  rewrite E. symmetry. apply (startsWith_app _ _ H).
Qed.

Local Ltac eval_schemes :=
  let t := eval vm_compute in (str "tel:") in
  let m := eval vm_compute in (str "mailto:") in
  change (str "tel:") with t in *; change (str "mailto:") with m in *.

Lemma tel_is_not_mailto s :
  startsWith s (str "tel:") = true -> startsWith s (str "mailto:") = false.
Proof.
  eval_schemes. destruct s as [|c cs]; intros H; simpl in *; [discriminate|].
  destruct (N.eqb_spec c 116) as [->|]; [reflexivity | simpl in H; discriminate].
Qed.

Lemma mailto_is_not_tel s :
  startsWith s (str "mailto:") = true -> startsWith s (str "tel:") = false.
Proof.
  eval_schemes. destruct s as [|c cs]; intros H; simpl in *; [discriminate|].
  destruct (N.eqb_spec c 109) as [->|]; [reflexivity | simpl in H; discriminate].
Qed.

(** X20: the number and the address that the contact adapter writes on
    an anchor give its [href] back: [tel:] followed by the attribute
    [data-umami-event-number] is the [href] of a [tel:] anchor, [mailto:]
    followed by [data-umami-event-email] that of a [mailto:] anchor. *)
Theorem contact_attribute_round_trip (phoneEvent emailEvent : jsstring) (a : Anchor) :
  (startsWith (href a) (str "tel:") = true ->
   exists number,
     getAttribute (str "data-umami-event-number")
       (a_attrs (contact_anchor phoneEvent emailEvent a)) = Some number
     /\ str "tel:" ++ number = href a)
  /\ (startsWith (href a) (str "mailto:") = true ->
      exists address,
        getAttribute (str "data-umami-event-email")
          (a_attrs (contact_anchor phoneEvent emailEvent a)) = Some address
        /\ str "mailto:" ++ address = href a).
Proof.
  split; intros H; unfold contact_anchor.
  - rewrite H. cbn [href with_attrs]. rewrite (tel_is_not_mailto _ H).
    eexists. split; [apply getAttribute_setAttribute_eq|].
    apply remove_first_prefix, H.
  - rewrite (mailto_is_not_tel _ H), H.
    eexists. split; [apply getAttribute_setAttribute_eq|].
    apply remove_first_prefix, H.
Qed.

Lemma contact_attribute_round_trip_witness :
  startsWith (str "tel:+123") (str "tel:") = true
  /\ exists number,
       getAttribute (str "data-umami-event-number")
         (a_attrs (contact_anchor (str "phone_link") (str "email_link")
                     {| href := str "tel:+123"; host := str ""; a_attrs := [] |}))
       = Some number
       /\ str "tel:" ++ number = str "tel:+123".
Proof.
  split; [reflexivity|].
  exact (proj1 (contact_attribute_round_trip (str "phone_link") (str "email_link")
                  {| href := str "tel:+123"; host := str ""; a_attrs := [] |})
           eq_refl).
Defined.

Lemma getUmamiEvent_override a v defaultEvent :
  getAttribute (str "data-umami-event") a = Some v -> v <> [] ->
  getUmamiEvent (Some a) defaultEvent = v.
Proof.
  intros H Hv. unfold getUmamiEvent. rewrite H. destruct v; [congruence | reflexivity].
Qed.

Lemma outbound_anchor_keeps_override defaultEvent location_host a v :
  getAttribute (str "data-umami-event") (a_attrs a) = Some v -> v <> [] ->
  getAttribute (str "data-umami-event")
    (a_attrs (outbound_anchor defaultEvent location_host a)) = Some v
  /\ href (outbound_anchor defaultEvent location_host a) = href a.
Proof.
  intros H Hv. unfold outbound_anchor.
  destruct (startsWith (href a) (str "tel:") || startsWith (href a) (str "mailto:"));
    [auto|].
  destruct (jsstring_eq_dec (host a) location_host); [auto|].
  cbn [a_attrs href with_attrs]. split; [|reflexivity].
  rewrite getAttribute_setAttribute_ne by discriminate.
  rewrite getAttribute_setAttribute_eq. f_equal.
  apply (getUmamiEvent_override _ _ _ H Hv).
Qed.

Lemma contact_anchor_keeps_override phoneEvent emailEvent a v :
  getAttribute (str "data-umami-event") (a_attrs a) = Some v -> v <> [] ->
  getAttribute (str "data-umami-event")
    (a_attrs (contact_anchor phoneEvent emailEvent a)) = Some v.
Proof.
  intros H Hv. unfold contact_anchor.
  destruct (startsWith (href a) (str "tel:")) eqn:Ht.
  - cbn [href with_attrs]. rewrite (tel_is_not_mailto _ Ht). cbn [a_attrs with_attrs].
    rewrite getAttribute_setAttribute_ne by discriminate.
    rewrite getAttribute_setAttribute_eq. f_equal.
    apply (getUmamiEvent_override _ _ _ H Hv).
  - destruct (startsWith (href a) (str "mailto:")); [|exact H].
    cbn [a_attrs with_attrs].
    rewrite getAttribute_setAttribute_ne by discriminate.
    rewrite getAttribute_setAttribute_eq. f_equal.
    apply (getUmamiEvent_override _ _ _ H Hv).
Qed.

(** X21: a custom event name on an anchor is never overwritten: an
    anchor that carries a non-empty [data-umami-event] carries the same
    value after the outbound adapter and the contact adapter have run,
    whatever the configured defaults. *)
Theorem link_adapters_keep_custom_name
    (outboundEvent location_host phoneEvent emailEvent : jsstring) (a : Anchor)
    (name : jsstring) :
  getAttribute (str "data-umami-event") (a_attrs a) = Some name ->
  name <> [] ->
  getAttribute (str "data-umami-event")
    (a_attrs (contact_anchor phoneEvent emailEvent
                (outbound_anchor outboundEvent location_host a))) = Some name.
Proof.
  intros H Hn.
  destruct (outbound_anchor_keeps_override outboundEvent location_host a name H Hn)
    as (H1 & _).
  apply contact_anchor_keeps_override; assumption.
Qed.

Lemma link_adapters_keep_custom_name_witness :
  getAttribute (str "data-umami-event") [(str "data-umami-event", str "docs_link")]
    = Some (str "docs_link")
  /\ str "docs_link" <> []
  /\ getAttribute (str "data-umami-event")
       (a_attrs (contact_anchor (str "phone_link") (str "email_link")
                   (outbound_anchor (str "outbound_link") (str "example.org")
                      {| href := str "https://docs.example.com/";
                         host := str "docs.example.com";
                         a_attrs := [(str "data-umami-event", str "docs_link")] |})))
     = Some (str "docs_link").
Proof.
  assert (Hn : str "docs_link" <> []) by discriminate.
  split; [reflexivity|]. split; [exact Hn|].
  exact (link_adapters_keep_custom_name (str "outbound_link") (str "example.org")
           (str "phone_link") (str "email_link")
           {| href := str "https://docs.example.com/"; host := str "docs.example.com";
              a_attrs := [(str "data-umami-event", str "docs_link")] |}
           (str "docs_link") eq_refl Hn).
Defined.

(** X22: an anchor on the host of the page, with a scheme other than
    [tel:] and [mailto:], is left as it is by the two link adapters: it
    gets no attribute. *)
Theorem link_adapters_skip_own_host
    (outboundEvent location_host phoneEvent emailEvent : jsstring) (a : Anchor) :
  host a = location_host ->
  startsWith (href a) (str "tel:") = false ->
  startsWith (href a) (str "mailto:") = false ->
  contact_anchor phoneEvent emailEvent (outbound_anchor outboundEvent location_host a) = a.
Proof.
  intros Hh Ht Hm. unfold outbound_anchor. rewrite Ht, Hm. simpl.
  destruct (jsstring_eq_dec (host a) location_host); [|contradiction].
  unfold contact_anchor. rewrite Ht, Hm. reflexivity.
Qed.

Lemma link_adapters_skip_own_host_witness :
  str "example.org" = str "example.org"
  /\ startsWith (str "https://example.org/pricing") (str "tel:") = false
  /\ startsWith (str "https://example.org/pricing") (str "mailto:") = false
  /\ contact_anchor (str "phone_link") (str "email_link")
       (outbound_anchor (str "outbound_link") (str "example.org")
          {| href := str "https://example.org/pricing"; host := str "example.org";
             a_attrs := [] |})
     = {| href := str "https://example.org/pricing"; host := str "example.org";
          a_attrs := [] |}.
Proof.
  split; [reflexivity|]. split; [reflexivity|]. split; [reflexivity|].
  exact (link_adapters_skip_own_host (str "outbound_link") (str "example.org")
           (str "phone_link") (str "email_link")
           {| href := str "https://example.org/pricing"; host := str "example.org";
              a_attrs := [] |} eq_refl eq_refl eq_refl).
Defined.

(** X23: the event name of a form is decided by the nearest element,
    the form itself first, that has the attribute [data-umami-event]: its
    value when that is not empty, and the configured default when it is
    empty, whatever names the elements farther out carry. *)
Theorem form_event_name_nearest (defaultEvent : jsstring) (f : Form)
    (near far : list attrs) (el : attrs) (v : jsstring) :
  form_attrs f :: form_ancestors f = near ++ el :: far ->
  Forall (fun a => getAttribute (str "data-umami-event") a = None) near ->
  getAttribute (str "data-umami-event") el = Some v ->
  form_event_name defaultEvent f = match v with [] => defaultEvent | _ => v end.
Proof.
  intros Hc Hn He. unfold form_event_name, closest_umami_event. rewrite Hc.
  assert (Hf : List.find
                 (fun a => match getAttribute (str "data-umami-event") a with
                           | Some _ => true
                           | None => false
                           end) (near ++ el :: far) = Some el).
  { clear Hc. induction Hn as [|a near Ha _ IH]; simpl.
    - rewrite He. reflexivity.
    - rewrite Ha. exact IH. }
  rewrite Hf. unfold getUmamiEvent. rewrite He. destruct v; reflexivity.
Qed.

Lemma form_event_name_nearest_witness :
  [(str "id", str "signup")] :: [[(str "class", str "box")];
                                 [(str "data-umami-event", str "")];
                                 [(str "data-umami-event", str "outer_name")]]
    = [[(str "id", str "signup")]; [(str "class", str "box")]]
      ++ [(str "data-umami-event", str "")]
      :: [[(str "data-umami-event", str "outer_name")]]
  /\ Forall (fun a => getAttribute (str "data-umami-event") a = None)
       [[(str "id", str "signup")]; [(str "class", str "box")]]
  /\ getAttribute (str "data-umami-event") [(str "data-umami-event", str "")] = Some (str "")
  /\ form_event_name (str "form_submit")
       {| form_attrs := [(str "id", str "signup")];
          form_ancestors := [[(str "class", str "box")];
                             [(str "data-umami-event", str "")];
                             [(str "data-umami-event", str "outer_name")]] |}
     = str "form_submit".
Proof.
  assert (Hn : Forall (fun a => getAttribute (str "data-umami-event") a = None)
                 [[(str "id", str "signup")]; [(str "class", str "box")]])
    by (repeat constructor).
  split; [reflexivity|]. split; [exact Hn|]. split; [reflexivity|].
  exact (form_event_name_nearest (str "form_submit")
           {| form_attrs := [(str "id", str "signup")];
              form_ancestors := [[(str "class", str "box")];
                                 [(str "data-umami-event", str "")];
                                 [(str "data-umami-event", str "outer_name")]] |}
           [[(str "id", str "signup")]; [(str "class", str "box")]]
           [[(str "data-umami-event", str "outer_name")]]
           [(str "data-umami-event", str "")]
           (str "") eq_refl Hn eq_refl).
Defined.

Lemma take_segment_spec s :
  Forall (fun c => c <> slash) (take_segment s)
  /\ exists post, s = take_segment s ++ post /\ (post = [] \/ exists r, post = slash :: r).
Proof.
  induction s as [|c s (IH1 & post & IH2 & IH3)]; simpl.
  - split; [constructor|]. exists []. auto.
  - destruct (N.eqb_spec c slash) as [->|NE].
    + split; [constructor|]. exists (slash :: s). eauto.
    + split; [constructor; assumption|]. exists post. simpl. split; [congruence|exact IH3].
Qed.

Lemma take_segment_app id post :
  Forall (fun c => c <> slash) id ->
  (post = [] \/ exists r, post = slash :: r) ->
  take_segment (id ++ post) = id.
Proof.
  intros Hid Hp. induction Hid as [|c id Hc _ IH]; simpl.
  - destruct Hp as [->|[r ->]]; reflexivity.
  - destruct (N.eqb_spec c slash); [contradiction|]. rewrite IH. reflexivity.
Qed.

Lemma match_here_spec literal s id :
  match_here literal s = Some id ->
  id <> [] /\ Forall (fun c => c <> slash) id
  /\ exists post, s = literal ++ id ++ post /\ (post = [] \/ exists r, post = slash :: r).
Proof.
  unfold match_here. destruct (startsWith s literal) eqn:Hs; [|discriminate].
  destruct (take_segment_spec (skipn (length literal) s)) as (Hf & post & Hp & Hq).
  destruct (take_segment (skipn (length literal) s)) as [|c seg] eqn:E; [discriminate|].
  intros H. inversion H; subst id. split; [discriminate|]. split; [exact Hf|].
  exists post. split; [|exact Hq].
  rewrite (startsWith_app _ _ Hs) at 1. f_equal. exact Hp.
Qed.

(** X24: what [extractIdFromUrl] returns is in the URL: the id is not
    empty, contains no slash and stands in the URL right after the
    literal of the pattern, up to the next slash or the end. *)
Theorem extractIdFromUrl_sound (url literal id : jsstring) :
  extractIdFromUrl url literal = Some id ->
  id <> []
  /\ Forall (fun c => c <> slash) id
  /\ exists pre post,
       url = pre ++ literal ++ id ++ post
       /\ (post = [] \/ exists r, post = slash :: r).
Proof.
  induction url as [|c url IH]; simpl.
  - destruct (match_here literal []) as [x|] eqn:E; [|discriminate].
    intros H. inversion H; subst x.
    destruct (match_here_spec _ _ _ E) as (H1 & H2 & post & H3 & H4).
    split; [exact H1|]. split; [exact H2|]. exists [], post. auto.
  - destruct (match_here literal (c :: url)) as [x|] eqn:E.
    + intros H. inversion H; subst x.
      destruct (match_here_spec _ _ _ E) as (H1 & H2 & post & H3 & H4).
      split; [exact H1|]. split; [exact H2|]. exists [], post. auto.
    + intros H. destruct (IH H) as (H1 & H2 & pre & post & H3 & H4).
      split; [exact H1|]. split; [exact H2|]. exists (c :: pre), post.
      simpl. split; [congruence|exact H4].
Qed.

Lemma extractIdFromUrl_sound_witness :
  extractIdFromUrl sample_uri scheduled_events = Some (str "AB12")
  /\ str "AB12" <> []
  /\ Forall (fun c => c <> slash) (str "AB12")
  /\ exists pre post,
       sample_uri = pre ++ scheduled_events ++ str "AB12" ++ post
       /\ (post = [] \/ exists r, post = slash :: r).
Proof.
  assert (H : extractIdFromUrl sample_uri scheduled_events = Some (str "AB12"))
    by (vm_compute; reflexivity).
  split; [exact H|].
  exact (extractIdFromUrl_sound sample_uri scheduled_events (str "AB12") H).
Defined.

Lemma extractIdFromUrl_unfold url literal :
  extractIdFromUrl url literal =
  match match_here literal url with
  | Some id => Some id
  | None => match url with [] => None | _ :: rest => extractIdFromUrl rest literal end
  end.
Proof. destruct url; reflexivity. Qed.

Lemma skipn_prefix (prefix s : jsstring) : skipn (length prefix) (prefix ++ s) = s.
Proof. induction prefix as [|c prefix IH]; [reflexivity | exact IH]. Qed.

(** X25: the id is found again: for a URL made of a part in which the
    pattern does not match, the literal, an id without slash that is not
    empty, and then nothing or a slash and more, [extractIdFromUrl]
    returns that id. *)
Theorem extractIdFromUrl_round_trip (pre literal id post : jsstring) :
  id <> [] ->
  Forall (fun c => c <> slash) id ->
  (post = [] \/ exists r, post = slash :: r) ->
  (forall k, (k < length pre)%nat ->
     match_here literal (skipn k (pre ++ literal ++ id ++ post)) = None) ->
  extractIdFromUrl (pre ++ literal ++ id ++ post) literal = Some id.
Proof.
  intros Hne Hid Hpost. induction pre as [|c pre IH]; intros Hno.
  - simpl. rewrite extractIdFromUrl_unfold. unfold match_here.
    rewrite startsWith_prefix, skipn_prefix.
    rewrite (take_segment_app id post Hid Hpost).
    destruct id; [congruence | reflexivity].
  - rewrite extractIdFromUrl_unfold.
    assert (H0 : match_here literal ((c :: pre) ++ literal ++ id ++ post) = None)
      by (apply (Hno 0%nat); simpl; lia).
    rewrite H0. simpl.
    apply IH. intros k Hk. apply (Hno (S k)). simpl. lia.
Qed.

Lemma extractIdFromUrl_round_trip_witness :
  str "XY9" <> []
  /\ Forall (fun c => c <> slash) (str "XY9")
  /\ (@nil N = [] \/ exists r, @nil N = slash :: r)
  /\ (forall k, (k < length (str "/e/1/"))%nat ->
        match_here invitees (skipn k (str "/e/1/" ++ invitees ++ str "XY9" ++ [])) = None)
  /\ extractIdFromUrl (str "/e/1/" ++ invitees ++ str "XY9" ++ []) invitees
     = Some (str "XY9").
Proof.
  assert (H1 : str "XY9" <> []) by discriminate.
  assert (H2 : Forall (fun c => c <> slash) (str "XY9"))
    by (repeat constructor; discriminate).
  assert (H3 : @nil N = [] \/ exists r, @nil N = slash :: r) by (left; reflexivity).
  assert (H4 : forall k, (k < length (str "/e/1/"))%nat ->
             match_here invitees (skipn k (str "/e/1/" ++ invitees ++ str "XY9" ++ [])) = None).
  { intros k Hk. do 5 (destruct k as [|k]; [vm_compute; reflexivity|]).
    simpl in Hk. lia. }
  split; [exact H1|]. split; [exact H2|]. split; [exact H3|]. split; [exact H4|].
  exact (extractIdFromUrl_round_trip (str "/e/1/") invitees (str "XY9") [] H1 H2 H3 H4).
Defined.

End AdapterFacts.


(* ===================================================================== *)
(** ** Properties of the installation of the adapters *)
(* ===================================================================== *)

Section SetupFacts.

Import JsString JsValue Adapters Registry Setup.

Lemma read_defined v key :
  nullish v = false -> read v key = Helper.Return (get v key).
Proof. destruct v; simpl; intros H; try discriminate H; reflexivity. Qed.


Lemma setup_adapter_returns tracking anchors s :
  source_fails tracking anchors s = false ->
  enabled tracking s = true ->
  setup_adapter tracking anchors s = Helper.Return tt.
Proof.
  unfold source_fails. intros H He. rewrite He in H.
  apply orb_false_iff in H as [_ H]. simpl in H.
  destruct s; try reflexivity. unfold setup_adapter.
  destruct (existsb contact_link anchors); [|reflexivity].
  simpl in H. rewrite (read_defined _ _ H). reflexivity.
Qed.

Lemma setup_sources_returns tracking anchors ss :
  (forall s, In s ss -> source_fails tracking anchors s = false) ->
  setup_sources tracking anchors ss
  = (Helper.Return tt, List.filter (enabled tracking) ss).
Proof.
  induction ss as [|s ss IH]; intros H; [reflexivity|].
  pose proof (H s (or_introl eq_refl)) as Hs.
  pose proof (setup_adapter_returns tracking anchors s Hs) as Ha.
  unfold source_fails in Hs.
  apply orb_false_iff in Hs as [Hs _]. apply orb_false_iff in Hs as [Ht Hk].
  cbn [setup_sources List.filter].
  rewrite (read_defined _ _ Ht), (read_defined _ _ Hk).
  fold (enabled tracking s).
  rewrite IH by (intros s' Hin; apply H; right; exact Hin).
  destruct (enabled tracking s); [rewrite Ha by reflexivity|]; reflexivity.
Qed.


Lemma setupEventListeners_returns_when_no_source_fails cfg anchors :
  (forall s, source_fails (get cfg (str "tracking")) anchors s = false) ->
  setupEventListeners cfg anchors
  = (Helper.Return tt, List.filter (enabled (get cfg (str "tracking"))) sources).
Proof.
  intros H. unfold setupEventListeners. apply setup_sources_returns.
  intros s _. apply H.
Qed.





(** [mergeConfig] returns a fresh object, whatever it is given. *)
Lemma mergeConfig_is_object d u : exists ps, mergeConfig d u = VObject ps.
Proof. destruct u; eexists; reflexivity. Qed.

(** A read off a merged object. *)
Lemma get_mergeConfig d ps key :
  List.NoDup (List.map fst ps) ->
  get (mergeConfig d (VObject ps)) key =
  match lookup_prop key ps with
  | Some v =>
      if merges_recursively v
      then mergeConfig (default_or_empty (get d key)) v
      else v
  | None =>
      match lookup_prop key (own_props d) with
      | Some x => x
      | None => VUndefined
      end
  end.
Proof.
  intros Hnd. rewrite mergeConfig_object, get_object.
  destruct (lookup_prop key ps) as [v|] eqn:E.
  - rewrite (merge_props_present _ _ _ key v Hnd (lookup_prop_In _ _ _ E)).
    reflexivity.
  - rewrite (merge_props_absent _ _ _ _ (lookup_prop_None _ _ E)). reflexivity.
Qed.

Lemma unique_keys_lookup ps key v :
  unique_keys (VObject ps) -> lookup_prop key ps = Some v -> unique_keys v.
Proof.
  intros Hu E. apply unique_keys_object in Hu as [_ Hall].
  rewrite List.Forall_forall in Hall.
  exact (Hall (key, v) (lookup_prop_In _ _ _ E)).
Qed.

Lemma source_fails_false tracking anchors s :
  nullish tracking = false ->
  nullish (get tracking (source_key s)) = false ->
  nullish (get (get tracking (str "contactLinks")) (str "eventName")) = false ->
  source_fails tracking anchors s = false.
Proof.
  intros Ht Hk He. unfold source_fails. rewrite Ht, Hk. simpl.
  destruct s; try apply andb_false_r.
  rewrite He, andb_false_r. apply andb_false_r.
Qed.

Lemma nullish_mergeConfig d u : nullish (mergeConfig d u) = false.
Proof. destruct (mergeConfig_is_object d u) as (ps & E). rewrite E. reflexivity. Qed.

(** The defaults of the script under [tracking]. *)
Lemma default_source s :
  exists ps, lookup_prop (source_key s) (own_props (get config (str "tracking")))
             = Some (VObject ps).
Proof. destruct s; eexists; vm_compute; reflexivity. Qed.

Lemma no_source_fails_in_defaults anchors s :
  source_fails (get config (str "tracking")) anchors s = false.
Proof.
  apply source_fails_false; [reflexivity | | vm_compute; reflexivity].
  destruct s; vm_compute; reflexivity.
Qed.

(** The merged [tracking.contactLinks.eventName], for an override of
    [contactLinks] that is an object or [null]. *)
Lemma merged_contact_eventName w :
  unique_keys w ->
  merges_recursively w = true ->
  lookup_path w [str "eventName"] <> Some VUndefined ->
  nullish
    (get (mergeConfig
            (default_or_empty (get (get config (str "tracking")) (str "contactLinks"))) w)
         (str "eventName")) = false.
Proof.
  intros Hu Hw Hx. destruct w as [| | | | | |cps]; try discriminate Hw.
  - vm_compute. reflexivity.
  - apply unique_keys_object in Hu as [Hnd _].
    rewrite (get_mergeConfig _ cps _ Hnd).
    cbn [lookup_path] in Hx.
    destruct (lookup_prop (str "eventName") cps) as [x|]; [|vm_compute; reflexivity].
    destruct (merges_recursively x) eqn:Hr; [apply nullish_mergeConfig|].
    destruct x; try reflexivity; [congruence | discriminate Hr].
Qed.

(** X28: options made of objects never make the constructor throw.  When
    the options are an object in which [tracking], if named, holds an
    object or [null], every source named under it holds an object or
    [null], and [tracking.contactLinks.eventName] is not set to
    [undefined], then no read of [setupEventListeners] fails on the merged
    configuration: the call returns with the enabled adapters installed,
    and [new UmamiHelper(options)] returns the instance, with or without
    [window.umami] and whatever the anchors of the document. *)
Theorem construct_returns_on_object_options (present : bool) (anchors : list Anchor)
    (options : props) :
  unique_keys (VObject options) ->
  (forall t, lookup_path (VObject options) [str "tracking"] = Some t ->
     merges_recursively t = true) ->
  (forall s w, lookup_path (VObject options) [str "tracking"; source_key s] = Some w ->
     merges_recursively w = true) ->
  lookup_path (VObject options) [str "tracking"; str "contactLinks"; str "eventName"]
    <> Some VUndefined ->
  let cfg := constructed_config (VObject options) in
  setupEventListeners cfg anchors
    = (Helper.Return tt, List.filter (enabled (get cfg (str "tracking"))) sources)
  /\ construct present anchors (VObject options) = Helper.Return cfg.
Proof.
  intros Hu Ht Hs Hx cfg.
  assert (Hok : forall s, source_fails (get cfg (str "tracking")) anchors s = false).
  { intros s. subst cfg. unfold constructed_config.
    pose proof Hu as Hu'. apply unique_keys_object in Hu' as [Hnd _].
    rewrite (get_mergeConfig _ options _ Hnd).
    cbn [lookup_path] in Ht, Hs, Hx.
    destruct (lookup_prop (str "tracking") options) as [t|] eqn:Et;
      [|apply no_source_fails_in_defaults].
    pose proof (unique_keys_lookup _ _ _ Hu Et) as Hut.
    rewrite (Ht t eq_refl).
    destruct t as [| | | | | |tps]; try discriminate (Ht _ eq_refl).
    - apply no_source_fails_in_defaults.
    - pose proof Hut as Hut'. apply unique_keys_object in Hut' as [Hndt _].
      change (default_or_empty (get config (str "tracking")))
        with (get config (str "tracking")).
      apply source_fails_false.
      + apply nullish_mergeConfig.
      + rewrite (get_mergeConfig _ tps _ Hndt).
        destruct (lookup_prop (source_key s) tps) as [w|] eqn:Ew.
        * rewrite (Hs s w); [apply nullish_mergeConfig|].
          cbn [lookup_path]. rewrite Ew. reflexivity.
        * destruct (default_source s) as (ps & E). rewrite E. reflexivity.
      + rewrite (get_mergeConfig _ tps _ Hndt).
        destruct (lookup_prop (str "contactLinks") tps) as [w|] eqn:Ew;
          [|vm_compute; reflexivity].
        assert (Hw : merges_recursively w = true).
        { apply (Hs ContactLinks w). cbn [lookup_path].
          change (source_key ContactLinks) with (str "contactLinks").
          rewrite Ew. reflexivity. }
        rewrite Hw. apply merged_contact_eventName.
        * exact (unique_keys_lookup _ _ _ Hut Ew).
        * exact Hw.
        * intros E. apply Hx. cbn [lookup_path] in E. 
          destruct w as [| | | | | |cps]; try discriminate E.
          exact E. }
  pose proof (setupEventListeners_returns_when_no_source_fails cfg anchors Hok) as E.
  split; [exact E|].
  unfold construct. fold cfg. rewrite E. destruct present; reflexivity.
Qed.

Lemma construct_returns_on_object_options_witness :
  unique_keys (VObject example_options)
  /\ (forall t, lookup_path (VObject example_options) [str "tracking"] = Some t ->
        merges_recursively t = true)
  /\ (forall s w,
        lookup_path (VObject example_options) [str "tracking"; source_key s] = Some w ->
        merges_recursively w = true)
  /\ lookup_path (VObject example_options)
       [str "tracking"; str "contactLinks"; str "eventName"] <> Some VUndefined
  /\ setupEventListeners (constructed_config (VObject example_options)) [phone_link]
     = (Helper.Return tt, [Forms; Calendly; ScrollDepth; Outbound; ContactLinks])
  /\ construct true [phone_link] (VObject example_options)
     = Helper.Return (constructed_config (VObject example_options)).
Proof.
  assert (H1 : forall t, lookup_path (VObject example_options) [str "tracking"] = Some t ->
                 merges_recursively t = true)
    by (intros t E; vm_compute in E; inversion E; reflexivity).
  assert (H2 : forall s w,
             lookup_path (VObject example_options) [str "tracking"; source_key s] = Some w ->
             merges_recursively w = true)
    by (intros s w E; destruct s; vm_compute in E; inversion E; reflexivity).
  assert (H3 : lookup_path (VObject example_options)
                 [str "tracking"; str "contactLinks"; str "eventName"] <> Some VUndefined)
    by (intros E; vm_compute in E; discriminate E).
  split; [exact example_options_unique_keys|].
  split; [exact H1|]. split; [exact H2|]. split; [exact H3|].
  exact (construct_returns_on_object_options true [phone_link] example_options
           example_options_unique_keys H1 H2 H3).
Defined.

(** The call on the instance ends as the body does. *)
Lemma setup_sources_on_outcome tracking anchors ss st :
  fst (setup_sources_on tracking anchors ss st) = fst (setup_sources tracking anchors ss).
Proof.
  revert st. induction ss as [|s ss IH]; intros st;
    cbn [setup_sources_on setup_sources]; [reflexivity|].
  destruct (read tracking (source_key s)) as [source|e]; [|reflexivity].
  destruct (read source (str "enabled")) as [enabled|e]; [|reflexivity].
  destruct (truthy enabled); [|apply IH].
  unfold Helper.bind.
  match goal with |- context [Helper.logDebug ?a ?s] =>
    destruct (logDebug_spec a s) as (st1 & E & _) end.
  rewrite E.
  destruct (setup_adapter tracking anchors s) as [[]|e]; [|reflexivity].
  rewrite IH. destruct (setup_sources tracking anchors ss). reflexivity.
Qed.

(** The constructor of the gate, with the adapters of [Setup], ends as
    [construct] says. *)
Lemma new_UmamiHelper_with_outcome (options : value) (anchors : list Anchor)
    (cfg : Helper.Config) (u : Helper.umami_obj) (now : jsstring)
    (r : Helper.result unit) (st0 : Helper.State) :
  Helper.new_UmamiHelper_with
    (setupEventListeners_on (constructed_config options) anchors) cfg u now
  = Some (r, st0) ->
  construct (Helper.checkUmamiAvailable st0) anchors options
  = match r with
    | Helper.Return _ => Helper.Return (constructed_config options)
    | Helper.Throw e => Helper.Throw e
    end.
Proof.
  intros H.
  pose proof (setupEventListeners_on_keeps_gate (constructed_config options) anchors) as Hk.
  destruct (new_UmamiHelper_with_spec _ cfg u now Hk)
    as (r' & st0' & E & _ & _ & _ & _ & _ & Hu & _).
  rewrite H in E. inversion E; subst r' st0'. clear E.
  unfold Helper.checkUmamiAvailable. rewrite Hu.
  unfold Helper.new_UmamiHelper_with in H.
  match type of H with context [Helper.logDebug ?a ?s] =>
    destruct (logDebug_spec a s) as (st1 & E & F & _) end.
  rewrite E in H. unfold Helper.init_with, Helper.checkUmamiAvailable in H.
  destruct F as (Fu & _). simpl in Fu. rewrite Fu in H.
  destruct u as [|track].
  - inversion H; subst. reflexivity.
  - destruct (become_ready_with_spec
                (setupEventListeners_on (constructed_config options) anchors) st1)
      as (st2 & E2 & _).
    rewrite E2 in H. inversion H as [H'].
    assert (Hr : r = fst (setupEventListeners (constructed_config options) anchors)).
    { transitivity (fst (setupEventListeners_on (constructed_config options) anchors st2)).
      - rewrite H'. reflexivity.
      - unfold setupEventListeners_on, setupEventListeners.
        apply setup_sources_on_outcome. }
    unfold construct. rewrite <- Hr. destruct r as [[]|e]; reflexivity.
Qed.





(** A number where [tracking] belongs: on a page with [window.umami] the
    constructor throws before it has installed any adapter; without
    [window.umami] it returns, and the exception waits for the interval
    to find the collector. *)
Example number_for_tracking_throws :
  (exists m, setupEventListeners (constructed_config number_for_tracking) []
             = (Helper.Throw (Helper.TypeError m), []))
  /\ (exists m, construct true [] number_for_tracking
                = Helper.Throw (Helper.TypeError m))
  /\ construct false [] number_for_tracking
     = Helper.Return (constructed_config number_for_tracking).
Proof.
  split; [eexists; vm_compute; reflexivity|].
  split; [eexists; vm_compute; reflexivity|]. reflexivity.
Qed.

(** A first call of [init] whose construction throws leaves the registry
    initialized and without instance: every later call returns [null]. *)
Example registry_after_failed_construction :
  let r := registry_run (construct true [])
             [CallInit number_for_tracking; CallInit (VObject []); GraceTimeout] initial in
  (exists m, init (construct true []) number_for_tracking initial
             = (Helper.Throw (Helper.TypeError m),
                {| instance := None; initialized := true |}))
  /\ r = {| instance := None; initialized := true |}
  /\ init (construct true []) (VObject []) r = (Helper.Return None, r).
Proof.
  split; [eexists; vm_compute; reflexivity|]. split; vm_compute; reflexivity.
Qed.

End SetupFacts.
